(** * tiledefs: the tile-type generator (types_generator.go)

    A shallow embedding of the generator that turns the tile definition
    text into a README table and a Go source file, together with the
    properties of its parser, property registry, bitmask assembler and
    template renderer.

    Go strings are byte sequences: they are modelled by [string], whose
    characters ([ascii]) are the 256 byte values.  The Go library functions
    the generator calls (package strings, unicode/utf8, bufio,
    text/template) are modelled in the modules [Utf8], [Strings] and
    [Bufio] below, from their Go sources. *)

From Stdlib Require Import ZArith Ascii String List Lia Bool.
From stdpp Require Import base option list gmap strings sorting.

Local Open Scope Z_scope.

(** ** Bytes *)

Definition ord (c : ascii) : Z := Z.of_N (N_of_ascii c).
Definition chr (n : Z) : ascii := ascii_of_N (Z.to_N n).

Fixpoint bytes (l : list Z) : string :=
  match l with
  | [] => EmptyString
  | n :: l' => String (chr n) (bytes l')
  end.

Definition LF : ascii := chr 10.
Definition CR : ascii := chr 13.
Definition SP : ascii := chr 32.
Definition nl : string := String LF EmptyString.
Definition tab : string := String (chr 9) EmptyString.
Definition dquote : string := String (chr 34) EmptyString.

(** [len s] is Go's [len(s)], [s[i:]] is [dropS i s] and [s[:i]] is
    [takeS i s]. *)
Definition len (s : string) : Z := Z.of_nat (String.length s).

Fixpoint dropS (n : nat) (s : string) : string :=
  match n, s with
  | O, _ => s
  | S n', String _ s' => dropS n' s'
  | S _, EmptyString => EmptyString
  end.

Fixpoint takeS (n : nat) (s : string) : string :=
  match n, s with
  | O, _ => EmptyString
  | S n', String c s' => String c (takeS n' s')
  | S _, EmptyString => EmptyString
  end.

(** [byteAt s i] is [s[i]] for an index in range (0 otherwise, never used). *)
Definition byteAt (s : string) (i : Z) : Z :=
  match String.get (Z.to_nat i) s with
  | Some c => ord c
  | None => 0
  end.

(** ** unicode/utf8 and unicode.IsSpace *)

Module Utf8.

Definition RuneError : Z := 65533.
Definition RuneSelf : Z := 128.
Definition UTFMax : Z := 4.

(** The entry of the table [first] for a leading byte: the size of the
    encoding and the accepted range of the second byte; [None] for a byte
    that cannot start a multi-byte encoding (the entries [xx]). *)
Definition first (b : Z) : option (nat * (Z * Z)) :=
  if b <? 194 then None                              (* 0x80..0xC1: xx *)
  else if b <=? 223 then Some (2%nat, (128, 191))    (* 0xC2..0xDF: s1 *)
  else if b =? 224 then Some (3%nat, (160, 191))     (* 0xE0: s2 *)
  else if b <=? 236 then Some (3%nat, (128, 191))    (* 0xE1..0xEC: s3 *)
  else if b =? 237 then Some (3%nat, (128, 159))     (* 0xED: s4 *)
  else if b <=? 239 then Some (3%nat, (128, 191))    (* 0xEE..0xEF: s3 *)
  else if b =? 240 then Some (4%nat, (144, 191))     (* 0xF0: s5 *)
  else if b <=? 243 then Some (4%nat, (128, 191))    (* 0xF1..0xF3: s6 *)
  else if b =? 244 then Some (4%nat, (128, 143))     (* 0xF4: s7 *)
  else None.                                         (* 0xF5..0xFF: xx *)

Definition cont (b : Z) : bool := (128 <=? b) && (b <=? 191).

(** [utf8.DecodeRuneInString]: the first rune of [s] and its width in
    bytes; [(RuneError, 0)] on the empty string and [(RuneError, 1)] on an
    invalid encoding. *)
Definition DecodeRuneInString (s : string) : Z * nat :=
  match s with
  | EmptyString => (RuneError, 0%nat)
  | String c0 r =>
    let s0 := ord c0 in
    if s0 <? RuneSelf then (s0, 1%nat)
    else match first s0 with
    | None => (RuneError, 1%nat)
    | Some (sz, (lo, hi)) =>
      if (String.length s <? sz)%nat then (RuneError, 1%nat)
      else
        let s1 := byteAt s 1 in
        if (s1 <? lo) || (hi <? s1) then (RuneError, 1%nat)
        else if (sz <=? 2)%nat
        then (Z.lor (Z.shiftl (Z.land s0 31) 6) (Z.land s1 63), 2%nat)
        else
          let s2 := byteAt s 2 in
          if negb (cont s2) then (RuneError, 1%nat)
          else if (sz <=? 3)%nat
          then (Z.lor (Z.lor (Z.shiftl (Z.land s0 15) 12)
                             (Z.shiftl (Z.land s1 63) 6))
                      (Z.land s2 63), 3%nat)
          else
            let s3 := byteAt s 3 in
            if negb (cont s3) then (RuneError, 1%nat)
            else (Z.lor (Z.lor (Z.lor (Z.shiftl (Z.land s0 7) 18)
                                      (Z.shiftl (Z.land s1 63) 12))
                               (Z.shiftl (Z.land s2 63) 6))
                        (Z.land s3 63), 4%nat)
    end
  end.

(** [utf8.RuneStart]: the byte is not a continuation byte. *)
Definition RuneStart (b : Z) : bool := negb (Z.land b 192 =? 128).

(** The backward search of [DecodeLastRuneInString]:
    [for start--; start >= lim; start-- { if RuneStart(s[start]) break }]
    entered with [start] already decremented once. *)
Fixpoint backUp (fuel : nat) (s : string) (lim start : Z) : Z :=
  match fuel with
  | O => start
  | S k =>
    if start <? lim then start
    else if RuneStart (byteAt s start) then start
    else backUp k s lim (start - 1)
  end.

(** [utf8.DecodeLastRuneInString]. *)
Definition DecodeLastRuneInString (s : string) : Z * nat :=
  let e := len s in
  if e =? 0 then (RuneError, 0%nat)
  else
    let r := byteAt s (e - 1) in
    if r <? RuneSelf then (r, 1%nat)
    else
      let lim := Z.max 0 (e - UTFMax) in
      let start := backUp 4 s lim (e - 2) in
      let start := if start <? 0 then 0 else start in
      let '(r, size) := DecodeRuneInString (dropS (Z.to_nat start) s) in
      if start + Z.of_nat size =? e then (r, size) else (RuneError, 1%nat).

(** [unicode.IsSpace]: the Latin-1 cases of its switch and the ranges of
    the table [White_Space] above Latin-1. *)
Definition IsSpace (r : Z) : bool :=
  if r <=? 255 then
    (r =? 9) || (r =? 10) || (r =? 11) || (r =? 12) || (r =? 13)
    || (r =? 32) || (r =? 133) || (r =? 160)
  else
    (r =? 5760) || ((8192 <=? r) && (r <=? 8202))
    || ((8232 <=? r) && (r <=? 8233)) || (r =? 8239) || (r =? 8287)
    || (r =? 12288).

End Utf8.

(** ** Package strings *)

Module Strings.

(** [strings.TrimLeftFunc(s, unicode.IsSpace)]: runes are decoded from the
    front while they are white space.  [skip] counts the bytes of the
    current rune still to be dropped. *)
Fixpoint trimLeftFrom (skip : nat) (s : string) : string :=
  match s with
  | EmptyString => EmptyString
  | String _ s' =>
    match skip with
    | S k => trimLeftFrom k s'
    | O =>
      let '(r, w) := Utf8.DecodeRuneInString s in
      if Utf8.IsSpace r then trimLeftFrom (Nat.pred w) s' else s
    end
  end.

Definition TrimLeftSpace (s : string) : string := trimLeftFrom 0 s.

(** [strings.TrimRightFunc(s, unicode.IsSpace)]: runes are decoded from
    the back ([lastIndexFunc]) while they are white space.  Every round
    removes at least one byte, so [String.length s] rounds are enough. *)
Fixpoint trimRightFuel (fuel : nat) (s : string) : string :=
  match fuel with
  | O => s
  | S k =>
    let '(r, size) := Utf8.DecodeLastRuneInString s in
    match size with
    | O => s
    | S _ =>
      if Utf8.IsSpace r
      then trimRightFuel k (takeS (String.length s - size) s)
      else s
    end
  end.

Definition TrimRightSpace (s : string) : string :=
  trimRightFuel (String.length s) s.

(** [strings.TrimSpace]: leading and trailing white space, as defined by
    Unicode, removed. *)
Definition TrimSpace (s : string) : string :=
  TrimRightSpace (TrimLeftSpace s).

(** [strings.Split(s, sep)] for a separator of one byte: the substrings
    between the separators, one more than there are separators. *)
Fixpoint Split (s : string) (sep : ascii) : list string :=
  match s with
  | EmptyString => [EmptyString]
  | String c s' =>
    if Ascii.eqb c sep then EmptyString :: Split s' sep
    else match Split s' sep with
         | f :: fs => String c f :: fs
         | [] => [String c EmptyString]
         end
  end.

(** [strings.ToUpper] on a string of one byte, the only way the generator
    calls it.  An ASCII byte takes the ASCII path: a lower-case letter
    loses ['a' - 'A'], any other byte is returned as it is.  A byte from
    0x80 on is not valid UTF-8 by itself: ToUpper goes through
    [strings.Map], which decodes it as [RuneError] and writes U+FFFD
    (EF BF BD) in its place. *)
Definition ToUpper1 (c : ascii) : string :=
  let b := ord c in
  if b <? Utf8.RuneSelf then
    if (97 <=? b) && (b <=? 122)
    then String (chr (b - 32)) EmptyString
    else String c EmptyString
  else bytes [239; 191; 189].

End Strings.

(** ** bufio.Scanner with the split function ScanLines *)

Module Bufio.

Definition MaxScanTokenSize : Z := 64 * 1024.

(** [cutLine s]: the bytes of [s] before its first line feed, and what
    follows the line feed when there is one ([bytes.IndexByte(data, '\n')]
    of ScanLines). *)
Fixpoint cutLine (s : string) : string * option string :=
  match s with
  | EmptyString => (EmptyString, None)
  | String c s' =>
    if Ascii.eqb c LF then (EmptyString, Some s')
    else let '(l, r) := cutLine s' in (String c l, r)
  end.

(** [dropCR]: a trailing carriage return is dropped. *)
Fixpoint dropCR (s : string) : string :=
  match s with
  | EmptyString => EmptyString
  | String c EmptyString =>
    if Ascii.eqb c CR then EmptyString else s
  | String c s' => String c (dropCR s')
  end.

(** One call of [scanner.Scan()] followed by [scanner.Text()], on the
    input not yet consumed: [Some (line, rest)] when Scan returns true,
    [None] when it returns false.  Scan returns false at the end of the
    input, and also when the bytes up to the next line feed do not fit in
    the buffer, which does not grow beyond [MaxScanTokenSize] bytes
    (ErrTooLong): a line is scanned when it is shorter than that, its line
    feed apart. *)
Definition Scan (input : string) : option (string * string) :=
  match input with
  | EmptyString => None
  | _ =>
    let '(l, r) := cutLine input in
    if len l <? MaxScanTokenSize
    then Some (dropCR l, match r with Some r' => r' | None => EmptyString end)
    else None
  end.

End Bufio.

(** ** The generation model (types TileGen and TileDef) *)

Record TileDef : Type := mkTileDef {
  Symbol : string;
  Name : string;
  Properties : list string
}.

Record TileGen : Type := mkTileGen {
  Timestamp : string;
  Definitions : list TileDef;
  PropertyNameSet : gmap string bool;
  DefaultProperties : string
}.

(** The package variable [tilegen] as it is initialised: an empty
    PropertyNameSet and zero values elsewhere. *)
Definition tilegen : TileGen :=
  {| Timestamp := EmptyString; Definitions := [];
     PropertyNameSet := ∅; DefaultProperties := EmptyString |}.

Definition filenameTileTypes : string := "src/types.txt".
Definition filenameCodeOutput : string := "types.go".
Definition filenameReadme : string := "readme.md".

(** ** The parser *)

(** [capitilizeFirstLetter]: [strings.ToUpper(s[0:1]) + s[1:]], and the
    empty string for the empty string. *)
Definition capitilizeFirstLetter (s : string) : string :=
  match s with
  | EmptyString => EmptyString
  | String c rest => Strings.ToUpper1 c +:+ rest
  end.

(** The loop [for _, v := range arr[2:]] of parseTileDefs: every token is
    capitalised, appended to [proplist] and set in the PropertyNameSet. *)
Definition addProperty (st : list string * gmap string bool) (v : string)
  : list string * gmap string bool :=
  let prop := capitilizeFirstLetter v in
  (st.1 ++ [prop], <[prop := true]> st.2).

(** The body of the scanning loop of parseTileDefs on one scanned line. *)
Definition parseLine (scanned : string) (tg : TileGen) : TileGen :=
  let line := Strings.TrimSpace scanned in
  if String.eqb line EmptyString then tg          (* continue *)
  else
    let arr := Strings.Split line SP in
    if (length arr <? 2)%nat then tg              (* continue *)
    else
      let symbol := nth 0 arr EmptyString in
      let name := capitilizeFirstLetter (nth 1 arr EmptyString) in
      let '(proplist, names) :=
        if (length arr =? 2)%nat
        then ([], PropertyNameSet tg)             (* goto finish *)
        else fold_left addProperty (drop 2 arr) ([], PropertyNameSet tg) in
      let tile := {| Symbol := symbol; Name := name; Properties := proplist |} in
      {| Timestamp := Timestamp tg;
         Definitions := Definitions tg ++ [tile];
         PropertyNameSet := names;
         DefaultProperties := DefaultProperties tg |}.

(** The loop [for scanner.Scan() { ... }].  Every successful Scan consumes
    at least one byte of the input, so the loop makes at most [len input]
    rounds; [fuel] bounds them. *)
Fixpoint scanLoop (fuel : nat) (input : string) (tg : TileGen) : TileGen :=
  match fuel with
  | O => tg
  | S k =>
    match Bufio.Scan input with
    | None => tg
    | Some (line, rest) => scanLoop k rest (parseLine line tg)
    end
  end.

Definition parseTileDefs (s : string) (tg : TileGen) : TileGen :=
  scanLoop (S (String.length s)) s tg.

(** ** The bitmask assembler *)

(** The body of the loop of stringifyPropertyList: what one tile adds to
    the string [s]. *)
Definition stringifyTile (s : string) (tile : TileDef) : string :=
  let list := Properties tile in
  let s := s +:+ tab +:+ Name tile +:+ ": " in
  match length list with
  | 0%nat => s +:+ "0," +:+ nl                               (* case 0 *)
  | 1%nat => s +:+ nth 0 list EmptyString +:+ "," +:+ nl     (* case 1 *)
  | _ =>
    let arr := take (length list - 1) list in
    let last := nth (length list - 1) list EmptyString in
    let s := fold_left (λ s v, s +:+ v +:+ " | ") arr s in
    s +:+ last +:+ "," +:+ nl
  end.

Definition stringifyPropertyList (tg : TileGen) : TileGen :=
  {| Timestamp := Timestamp tg;
     Definitions := Definitions tg;
     PropertyNameSet := PropertyNameSet tg;
     DefaultProperties := fold_left stringifyTile (Definitions tg) EmptyString |}.

(** ** The templates *)

(** [{{range $x := l}} body {{end}}]: the body rendered for every element,
    in order. *)
Definition range {A : Type} (l : list A) (body : A → string) : string :=
  fold_right (λ x out, body x +:+ out) EmptyString l.

(** [{{range $name, $_ := .PropertyNameSet}}]: text/template visits the
    keys of a map in sorted order, which for strings is the byte-wise
    lexicographic order [String.le]. *)
Definition sortedKeys (m : gmap string bool) : list string :=
  merge_sort String.le (map fst (map_to_list m)).

Definition unlines (l : list string) : string :=
  fold_right (λ x out, x +:+ nl +:+ out) EmptyString l.

Definition ReadmeTemplate (tg : TileGen) : string :=
  unlines [
    "";
    "Tile Types Definitions";
    "----------------------------------------------------------------------";
    " ";
    "Time Generated |";
    "---------------|" ]
  +:+ Timestamp tg +:+
  unlines [
    " |";
    "";
    "This defintion table is generated from tile_types.txt.  Each symbol";
    "corresponds to the Name, which becomes a constant in types.go.  Since";
    "the following symbols have been defined, they can be used in grid.txt";
    "to create game worlds!";
    " ";
    "| Symbol | Name | Default Properties  |";
    "|:------:|------|---------------------|" ]
  +:+ range (Definitions tg) (λ tile,
        "| " +:+ Symbol tile +:+ " | " +:+ Name tile +:+ " | "
        +:+ range (Properties tile) (λ p, " " +:+ p +:+ ",")
        +:+ " |" +:+ nl)
  +:+ nl +:+ nl.

Definition CodeTemplate (tg : TileGen) : string :=
  unlines [
    "";
    "// Code generated by types_generator.go - DO NOT EDIT.";
    "";
    "package somepkg";
    "";
    "const (";
    tab +:+ "_ Kind = iota" ]
  +:+ tab
  +:+ range (Definitions tg) (λ tile, Name tile +:+ nl +:+ tab)
  +:+ unlines [
    "";
    ")";
    "";
    "const (";
    tab +:+ "_ Property = (1 << iota) >> 1" ]
  +:+ tab
  +:+ range (sortedKeys (PropertyNameSet tg)) (λ name, name +:+ nl +:+ tab)
  +:+ unlines [
    "";
    ")";
    "";
    "var DefaultProperty = map[Kind]Property {" ]
  +:+ DefaultProperties tg
  +:+ unlines [
    "";
    "}";
    "";
    "var SymbolToKind = map[string]Kind {" ]
  +:+ tab
  +:+ range (Definitions tg) (λ tile,
        dquote +:+ Symbol tile +:+ dquote +:+ ": " +:+ Name tile
        +:+ "," +:+ nl +:+ tab)
  +:+ unlines [ ""; "}" ].

(** ** Writing the artifacts *)

(** What a function that may call [log.Fatal] comes to: it returns, or the
    error is logged and the process exits at once. *)
Inductive outcome (A : Type) : Type :=
| Returns (a : A)
| Fatal (err : string).
Arguments Returns {A} a.
Arguments Fatal {A} err.

#[global] Instance outcome_ret : MRet outcome := λ A a, Returns a.

#[global] Instance outcome_bind : MBind outcome := λ A B k m,
  match m with
  | Returns a => k a
  | Fatal err => Fatal err
  end.

(** The file system: the contents of the files that exist. *)
Abbreviation Files := (gmap string string).

(** What the operating system does in one run: the time, and which calls
    fail.  [openFails path = Some err] when opening [path] fails with the
    error [err], and [writeFails path = Some n] when writing to [path] fails
    after [n] bytes. *)
Record OS : Type := mkOS {
  now : string;
  openFails : string → option string;
  truncateFails : string → bool;
  writeFails : string → option nat
}.

(** Writing [out] at offset 0 of a file that holds [old]. *)
Definition writeAt0 (out old : string) : string :=
  out +:+ dropS (String.length out) old.

(** [makeTheFile]: both templates are constants that parse, so that
    [template.Must] returns; [templ] is the parsed template as the function
    that renders it.  The file is opened with O_CREATE|O_RDWR, an error of
    which is fatal; the results of [os.Truncate] and of [t.Execute] are
    discarded. *)
Definition makeTheFile (os : OS) (templ : TileGen → string) (filename : string)
    (tg : TileGen) (fs : Files) : outcome Files :=
  match openFails os filename with
  | Some err => Fatal err                                   (* log.Fatal(err) *)
  | None =>
    let old := default EmptyString (fs !! filename) in
    let content := if truncateFails os filename then old else EmptyString in
    let out := templ tg in
    let written :=
      match writeFails os filename with
      | Some n => takeS n out
      | None => out
      end in
    Returns (<[filename := writeAt0 written content]> fs)
  end.

(** [processTileTypesFile]: the definitions file is read whole; an error of
    [ioutil.ReadFile], here that of a file that does not exist, is fatal. *)
Definition processTileTypesFile (tg : TileGen) (fs : Files) : outcome TileGen :=
  match fs !! filenameTileTypes with
  | None =>
    Fatal ("open " +:+ filenameTileTypes +:+ ": no such file or directory")
  | Some b => Returns (parseTileDefs b tg)
  end.

Definition main (os : OS) (fs : Files) : outcome Files :=
  let tg := {| Timestamp := now os; Definitions := Definitions tilegen;
               PropertyNameSet := PropertyNameSet tilegen;
               DefaultProperties := DefaultProperties tilegen |} in
  tg ← processTileTypesFile tg fs;
  let tg := stringifyPropertyList tg in
  fs ← makeTheFile os ReadmeTemplate filenameReadme tg fs;
  makeTheFile os CodeTemplate filenameCodeOutput tg fs.


(** ** The constants of the generated source

    A parenthesised const declaration whose first ConstSpec is
    [_ T = e(iota)] and whose other ConstSpecs are bare names repeats the
    expression: the blank identifier takes [iota = 0] and the k-th name
    takes [e(k)].  A line of the block on which the template printed an
    empty name declares nothing. *)

Definition declared (names : list string) : list string :=
  filter (λ n, n ≠ EmptyString) names.

Fixpoint constValues (e : Z → Z) (iota : Z) (names : list string)
  : list (string * Z) :=
  match names with
  | [] => []
  | n :: names' => (n, e iota) :: constValues e (iota + 1) names'
  end.

(** [_ Kind = iota] *)
Definition kindExpr (iota : Z) : Z := iota.

(** [_ Property = (1 << iota) >> 1], an untyped constant expression,
    evaluated exactly. *)
Definition propertyExpr (iota : Z) : Z := Z.shiftr (Z.shiftl 1 iota) 1.

Definition kindConstants (tg : TileGen) : list (string * Z) :=
  constValues kindExpr 1 (declared (map Name (Definitions tg))).

Definition propertyConstants (tg : TileGen) : list (string * Z) :=
  constValues propertyExpr 1 (declared (sortedKeys (PropertyNameSet tg))).

(** The entries of the map literal [SymbolToKind], in the order printed. *)
Definition symbolToKind (tg : TileGen) : list (string * string) :=
  map (λ tile, (Symbol tile, Name tile)) (Definitions tg).

(** ** What the specification speaks of *)

(** The lines of a text: a line ends at a line feed, and the bytes after the
    last line feed, when there are any, are a last line. *)
Fixpoint rawLines (s : string) : list string :=
  match s with
  | EmptyString => []
  | String c s' =>
    if Ascii.eqb c LF then EmptyString :: rawLines s'
    else match rawLines s' with
         | l :: ls => String c l :: ls
         | [] => [String c EmptyString]
         end
  end.

(** A carriage return before the line feed is not part of the line. *)
Definition textLines (s : string) : list string :=
  map Bufio.dropCR (rawLines s).

(** The fields of a line: the trimmed line split at single spaces. *)
Definition fields (line : string) : list string :=
  Strings.Split (Strings.TrimSpace line) SP.

(** A line makes a record when it is not blank after trimming and has at
    least two fields. *)
Definition qualifies (line : string) : bool :=
  negb (String.eqb (Strings.TrimSpace line) EmptyString)
  && (2 <=? length (fields line))%nat.

(** The record of a line: field 0 is the symbol, field 1 capitalised is the
    name, the fields from index 2 on, capitalised, are the properties. *)
Definition recordOf (line : string) : TileDef :=
  {| Symbol := nth 0 (fields line) EmptyString;
     Name := capitilizeFirstLetter (nth 1 (fields line) EmptyString);
     Properties := map capitilizeFirstLetter (drop 2 (fields line)) |}.

(** The lines that the scanning loop hands to its body. *)
Fixpoint scanAll (fuel : nat) (input : string) : list string :=
  match fuel with
  | O => []
  | S k =>
    match Bufio.Scan input with
    | None => []
    | Some (line, rest) => line :: scanAll k rest
    end
  end.

Definition scannedLines (s : string) : list string :=
  scanAll (S (String.length s)) s.

Definition fitsBuffer (l : string) : bool := len l <? Bufio.MaxScanTokenSize.

(** The lines before the first one that does not fit the scanner's buffer. *)
Fixpoint untilTooLong (ls : list string) : list string :=
  match ls with
  | [] => []
  | l :: ls' => if fitsBuffer l then l :: untilTooLong ls' else []
  end.

(** Setting every name of a list in a PropertyNameSet. *)
Definition setAll (props : list string) (m : gmap string bool) : gmap string bool :=
  fold_left (λ m p, <[p := true]> m) props m.

(** The first-seen order of the property names of a list of records. *)
Definition firstSeen (defs : list TileDef) : list string :=
  fold_left (λ seen p, if decide (p ∈ seen) then seen else seen ++ [p])
            (concat (map Properties defs)) [].

(** The bitmask expression of a property list, as a sequence of tokens:
    names separated by the combinator. *)
Inductive token : Type :=
| TName (n : string)
| TOr.

Definition printToken (t : token) : string :=
  match t with
  | TName n => n
  | TOr => " | "
  end.

Fixpoint orTokens (props : list string) : list token :=
  match props with
  | [] => []
  | [p] => [TName p]
  | p :: rest => TName p :: TOr :: orTokens rest
  end.

Definition isOr (t : token) : bool :=
  match t with TOr => true | TName _ => false end.

Definition tokenNames (ts : list token) : list string :=
  omap (λ t, match t with TName n => Some n | TOr => None end) ts.

Definition printTokens (ts : list token) : string :=
  fold_right (λ t out, printToken t +:+ out) EmptyString ts.

(** The zero sentinel for no property, the tokens printed otherwise. *)
Definition bitmaskExpr (props : list string) : string :=
  match props with
  | [] => "0"
  | _ => printTokens (orTokens props)
  end.

(** ** Further definitions used in the statements *)

(** The body of the scanning loop run over a list of lines. *)
Definition parseLines (lines : list string) (tg : TileGen) : TileGen :=
  fold_left (λ tg line, parseLine line tg) lines tg.

(** An input with a line of 65536 bytes between two short lines. *)
Fixpoint repeatByte (n : nat) (c : ascii) : string :=
  match n with
  | O => EmptyString
  | S k => String c (repeatByte k c)
  end.

Definition longLine : string := "t Tree " +:+ repeatByte (Z.to_nat 65529) "x".

Definition longInput : string :=
  "g Grass" +:+ nl +:+ longLine +:+ nl +:+ "w Water" +:+ nl.

(** The same line with one byte less. *)
Definition shorterLine : string :=
  "t Tree " +:+ repeatByte (Z.to_nat 65528) "x".

(** The property names of the qualifying lines among [lines]. *)
Definition allProperties (lines : list string) : list string :=
  concat (map (λ l, Properties (recordOf l)) (List.filter qualifies lines)).

(** The upper-case form of an ASCII byte. *)
Definition upperASCII (c : ascii) : ascii :=
  if (97 <=? ord c) && (ord c <=? 122) then chr (ord c - 32) else c.

(** A name followed by the combinator, what the inner loop of
    stringifyPropertyList writes for every name but the last. *)
Definition withOr (v : string) : list token := [TName v; TOr].

(** The text of one tile in DefaultProperties. *)
Definition entry (tile : TileDef) : string :=
  tab +:+ Name tile +:+ ": " +:+ bitmaskExpr (Properties tile) +:+ "," +:+ nl.

(** ** The sample definitions *)

Definition sampleInput : string :=
  unlines [ "g Grass burns"; "d Dirt"; "b Bush burns";
            "t Tree burns nowalk"; "w Water nowalk" ].

Definition sampleModel : TileGen :=
  stringifyPropertyList (parseTileDefs sampleInput tilegen).

Definition sampleCode : string :=
  unlines [
    "";
    "// Code generated by types_generator.go - DO NOT EDIT.";
    "";
    "package somepkg";
    "";
    "const (";
    tab +:+ "_ Kind = iota";
    tab +:+ "Grass";
    tab +:+ "Dirt";
    tab +:+ "Bush";
    tab +:+ "Tree";
    tab +:+ "Water";
    tab;
    ")";
    "";
    "const (";
    tab +:+ "_ Property = (1 << iota) >> 1";
    tab +:+ "Burns";
    tab +:+ "Nowalk";
    tab;
    ")";
    "";
    "var DefaultProperty = map[Kind]Property {";
    tab +:+ "Grass: Burns,";
    tab +:+ "Dirt: 0,";
    tab +:+ "Bush: Burns,";
    tab +:+ "Tree: Burns | Nowalk,";
    tab +:+ "Water: Nowalk,";
    "";
    "}";
    "";
    "var SymbolToKind = map[string]Kind {";
    tab +:+ dquote +:+ "g" +:+ dquote +:+ ": Grass,";
    tab +:+ dquote +:+ "d" +:+ dquote +:+ ": Dirt,";
    tab +:+ dquote +:+ "b" +:+ dquote +:+ ": Bush,";
    tab +:+ dquote +:+ "t" +:+ dquote +:+ ": Tree,";
    tab +:+ dquote +:+ "w" +:+ dquote +:+ ": Water,";
    tab;
    "}" ].



(** An operating system on which, for the README, the truncation fails and
    the first write of the template execution fails too. *)
Definition readmeFails : OS :=
  {| now := "Sun Nov  1 00:00:00 UTC 2026";
     openFails := λ _, None;
     truncateFails := λ f, bool_decide (f = filenameReadme);
     writeFails := λ f, if bool_decide (f = filenameReadme)
                        then Some 0%nat else None |}.

(** A definitions file, and a README left by an earlier run. *)
Definition staleFiles : Files :=
  {[ filenameTileTypes := "g Grass burns"; filenameReadme := "stale table" ]}.

(** The model with another time stamp. *)
Definition withTime (time : string) (tg : TileGen) : TileGen :=
  {| Timestamp := time; Definitions := Definitions tg;
     PropertyNameSet := PropertyNameSet tg;
     DefaultProperties := DefaultProperties tg |}.

(** The text of the README before and after the time stamp. *)
Definition readmeBefore : string :=
  unlines [
    "";
    "Tile Types Definitions";
    "----------------------------------------------------------------------";
    " ";
    "Time Generated |";
    "---------------|" ].

Definition readmeAfter (tg : TileGen) : string :=
  unlines [
    " |";
    "";
    "This defintion table is generated from tile_types.txt.  Each symbol";
    "corresponds to the Name, which becomes a constant in types.go.  Since";
    "the following symbols have been defined, they can be used in grid.txt";
    "to create game worlds!";
    " ";
    "| Symbol | Name | Default Properties  |";
    "|:------:|------|---------------------|" ]
  +:+ range (Definitions tg) (λ tile,
        "| " +:+ Symbol tile +:+ " | " +:+ Name tile +:+ " | "
        +:+ range (Properties tile) (λ p, " " +:+ p +:+ ",")
        +:+ " |" +:+ nl)
  +:+ nl +:+ nl.

(** ** Definitions for the further properties *)

(** The text is not empty and does not end in a line feed: its last line is
    not terminated. *)
Fixpoint endsOpen (s : string) : bool :=
  match s with
  | EmptyString => false
  | String c EmptyString => negb (Ascii.eqb c LF)
  | String _ s' => endsOpen s'
  end.

(** The number of times the byte [c] occurs in [s]. *)
Fixpoint countByte (c : ascii) (s : string) : nat :=
  match s with
  | EmptyString => 0
  | String x s' => ((if Ascii.eqb x c then 1 else 0) + countByte c s')%nat
  end.



(** The files after the run on [staleFiles] in which truncating and writing
    the README fail. *)
Definition staleFilesAfter : Files :=
  {[ filenameTileTypes := "g Grass burns";
     filenameReadme := "stale table";
     filenameCodeOutput :=
       CodeTemplate
         (stringifyPropertyList (parseTileDefs "g Grass burns" tilegen)) ]}.


(** * Properties *)

(** ** Strings: basic facts *)

Section StringFacts.

Lemma append_cons (c : ascii) (s t : string) :
  String c s +:+ t = String c (s +:+ t).
Proof. reflexivity. Qed.

Lemma append_empty_l (s : string) : EmptyString +:+ s = s.
Proof. reflexivity. Qed.

Lemma append_nil_r (s : string) : s +:+ EmptyString = s.
Proof.
  induction s as [|c s IH]; [done|]. by rewrite append_cons, IH.
Qed.

Lemma append_assoc (a b c : string) : (a +:+ b) +:+ c = a +:+ (b +:+ c).
Proof.
  induction a as [|x a IH]; [done|]. by rewrite !append_cons, IH.
Qed.

Lemma length_append (a b : string) :
  String.length (a +:+ b) = (String.length a + String.length b)%nat.
Proof.
  induction a as [|x a IH]; [done|]. rewrite append_cons. simpl. by rewrite IH.
Qed.

Lemma eqb_empty_iff (s : string) :
  String.eqb s EmptyString = true ↔ s = EmptyString.
Proof. apply String.eqb_eq. Qed.

Lemma dropS_append (a b : string) : dropS (String.length a) (a +:+ b) = b.
Proof.
  induction a as [|x a IH]; [done|]. rewrite append_cons. simpl. done.
Qed.

Lemma takeS_all (s : string) : takeS (String.length s) s = s.
Proof. induction s as [|c s IH]; simpl; [done | by rewrite IH]. Qed.

Lemma dropS_empty (n : nat) : dropS n EmptyString = EmptyString.
Proof. by destruct n. Qed.

End StringFacts.

(** ** The scanner *)

Section Scanner.

Lemma cutLine_length (s l : string) (r : option string) :
  Bufio.cutLine s = (l, r) →
  String.length s =
    (String.length l + match r with
                       | Some r' => S (String.length r')
                       | None => 0
                       end)%nat.
Proof.
  revert l r. induction s as [|c s IH]; intros l r; simpl.
  - intros [= <- <-]. done.
  - destruct (Ascii.eqb c LF).
    + intros [= <- <-]. done.
    + destruct (Bufio.cutLine s) as [l' r'] eqn:E.
      intros [= <- <-]. simpl. by rewrite (IH _ _ eq_refl).
Qed.

Lemma cutLine_rawLines (s l : string) (r : option string) :
  s ≠ EmptyString →
  Bufio.cutLine s = (l, r) →
  rawLines s = l :: match r with
                    | Some r' => rawLines r'
                    | None => []
                    end.
Proof.
  revert l r. induction s as [|c s IH]; intros l r Hne; [done|]. simpl.
  destruct (Ascii.eqb c LF).
  - intros [= <- <-]. done.
  - destruct (Bufio.cutLine s) as [l' r'] eqn:E.
    intros [= <- <-].
    destruct s as [|c' s'].
    + simpl in E. injection E as <- <-. done.
    + rewrite (IH l' r'); [done.. |]. done.
Qed.

(** A successful Scan consumes input. *)
Lemma Scan_consumes (input line rest : string) :
  Bufio.Scan input = Some (line, rest) →
  (String.length rest < String.length input)%nat.
Proof.
  unfold Bufio.Scan. destruct input as [|c s]; [done|].
  destruct (Bufio.cutLine (String c s)) as [l r] eqn:E.
  destruct (len l <? Bufio.MaxScanTokenSize); [|done].
  intros [= <- <-].
  pose proof (cutLine_length _ _ _ E) as H.
  destruct r as [r'|]; simpl in *; lia.
Qed.

(** The loop does not depend on its fuel once there is enough of it. *)
Lemma scanAll_fuel (f1 f2 : nat) (input : string) :
  (String.length input < f1)%nat → (String.length input < f2)%nat →
  scanAll f1 input = scanAll f2 input.
Proof.
  revert f2 input. induction f1 as [|f1 IH]; intros f2 input H1 H2; [lia|].
  destruct f2 as [|f2]; [lia|]. simpl.
  destruct (Bufio.Scan input) as [[line rest]|] eqn:E; [|done].
  apply Scan_consumes in E. f_equal. apply IH; lia.
Qed.

Lemma scanLoop_scanAll (fuel : nat) (input : string) (tg : TileGen) :
  scanLoop fuel input tg =
  fold_left (λ tg line, parseLine line tg) (scanAll fuel input) tg.
Proof.
  revert input tg. induction fuel as [|k IH]; intros input tg; simpl; [done|].
  destruct (Bufio.Scan input) as [[line rest]|]; simpl; [apply IH | done].
Qed.

Lemma scanAll_rawLines (fuel : nat) (input : string) :
  (String.length input < fuel)%nat →
  scanAll fuel input = map Bufio.dropCR (untilTooLong (rawLines input)).
Proof.
  revert input. induction fuel as [|k IH]; intros input Hlen; [lia|].
  cbn [scanAll]. unfold Bufio.Scan.
  destruct input as [|c s]; [done|].
  assert (Hne : String c s ≠ EmptyString) by done.
  destruct (Bufio.cutLine (String c s)) as [l r] eqn:E.
  rewrite (cutLine_rawLines _ _ _ Hne E).
  pose proof (cutLine_length _ _ _ E) as HL.
  cbn [untilTooLong]. unfold fitsBuffer.
  destruct (len l <? Bufio.MaxScanTokenSize); [|done].
  cbn [map]. f_equal.
  destruct r as [r'|].
  - apply IH. lia.
  - destruct k; done.
Qed.

Lemma untilTooLong_all (ls : list string) :
  Forall (λ l, fitsBuffer l = true) ls → untilTooLong ls = ls.
Proof.
  induction 1 as [|l ls Hl _ IH]; simpl; [done|]. by rewrite Hl, IH.
Qed.

Lemma scannedLines_spec (s : string) :
  scannedLines s = map Bufio.dropCR (untilTooLong (rawLines s)).
Proof. apply scanAll_rawLines. lia. Qed.

End Scanner.

(** ** The parser: one line, then all lines *)

Section Parser.

Lemma fold_addProperty (toks pl : list string) (m : gmap string bool) :
  fold_left addProperty toks (pl, m) =
  (pl ++ map capitilizeFirstLetter toks,
   setAll (map capitilizeFirstLetter toks) m).
Proof.
  revert pl m. induction toks as [|v toks IH]; intros pl m; simpl.
  - by rewrite app_nil_r.
  - unfold addProperty at 2. simpl. rewrite IH. by rewrite <- app_assoc.
Qed.

(** The body of the loop adds the record of a qualifying line and sets its
    properties; any other line leaves the model as it is. *)
Lemma parseLine_spec (line : string) (tg : TileGen) :
  parseLine line tg =
  if qualifies line
  then {| Timestamp := Timestamp tg;
          Definitions := Definitions tg ++ [recordOf line];
          PropertyNameSet :=
            setAll (Properties (recordOf line)) (PropertyNameSet tg);
          DefaultProperties := DefaultProperties tg |}
  else tg.
Proof.
  unfold parseLine, qualifies, recordOf, fields.
  destruct (String.eqb (Strings.TrimSpace line) EmptyString); [done|].
  cbn [negb andb].
  set (arr := Strings.Split (Strings.TrimSpace line) SP).
  destruct (Nat.ltb_spec (length arr) 2) as [Hlt|Hge].
  - destruct (Nat.leb_spec 2 (length arr)); [lia | done].
  - destruct (Nat.leb_spec 2 (length arr)); [|lia].
    destruct (Nat.eqb_spec (length arr) 2) as [H2|H2].
    + rewrite (drop_ge arr 2) by lia. done.
    + rewrite fold_addProperty. done.
Qed.

Lemma parseTileDefs_parseLines (s : string) (tg : TileGen) :
  parseTileDefs s tg = parseLines (scannedLines s) tg.
Proof. apply scanLoop_scanAll. Qed.

Lemma parseLines_Definitions (lines : list string) (tg : TileGen) :
  Definitions (parseLines lines tg) =
  Definitions tg ++ map recordOf (List.filter qualifies lines).
Proof.
  revert tg. induction lines as [|l lines IH]; intros tg; simpl.
  - by rewrite app_nil_r.
  - unfold parseLines in *. simpl. rewrite IH, parseLine_spec.
    destruct (qualifies l); simpl; [|done]. by rewrite <- app_assoc.
Qed.

Lemma parseLines_PropertyNameSet (lines : list string) (tg : TileGen) :
  PropertyNameSet (parseLines lines tg) =
  setAll (concat (map (λ l, Properties (recordOf l))
                      (List.filter qualifies lines)))
         (PropertyNameSet tg).
Proof.
  revert tg. induction lines as [|l lines IH]; intros tg; simpl; [done|].
  unfold parseLines in *. simpl. rewrite IH, parseLine_spec.
  destruct (qualifies l); simpl; [|done].
  unfold setAll. by rewrite fold_left_app.
Qed.

Lemma setAll_lookup (props : list string) (m : gmap string bool) (p : string) :
  setAll props m !! p = if decide (p ∈ props) then Some true else m !! p.
Proof.
  revert m. induction props as [|q props IH]; intros m.
  - rewrite decide_False; [done | apply not_elem_of_nil].
  - unfold setAll in *. cbn [fold_left]. rewrite IH.
    destruct (decide (p ∈ props)) as [Hin|Hnin].
    + rewrite decide_True; [done | by right].
    + destruct (decide (p = q)) as [->|Hne].
      * rewrite lookup_insert_eq. rewrite decide_True; [done | by left].
      * rewrite lookup_insert_ne by done.
        rewrite decide_False; [done|]. by intros [?|?]%elem_of_cons.
Qed.

Lemma elem_of_filter_qualifies (l : string) (lines : list string) :
  l ∈ List.filter qualifies lines ↔ l ∈ lines ∧ qualifies l = true.
Proof. rewrite !list_elem_of_In. apply filter_In. Qed.

(** A field at an index from 2 on only exists on a qualifying line. *)
Lemma field_qualifies (line tok : string) (i : nat) :
  fields line !! i = Some tok → (1 ≤ i)%nat → qualifies line = true.
Proof.
  intros Hi Hge. unfold qualifies.
  apply lookup_lt_Some in Hi.
  destruct (String.eqb_spec (Strings.TrimSpace line) EmptyString) as [E|E].
  - unfold fields in Hi. rewrite E in Hi. simpl in Hi. lia.
  - cbn [negb andb]. apply Nat.leb_le. lia.
Qed.

End Parser.

(** ** The records of an input *)

Section Records.

(** On every input the loop ends, and the records are those of the
    qualifying lines among the lines scanned, in their order. *)
Lemma parseTileDefs_Definitions (s : string) :
  Definitions (parseTileDefs s tilegen) =
  map recordOf (List.filter qualifies (scannedLines s)).
Proof. by rewrite parseTileDefs_parseLines, parseLines_Definitions. Qed.

(** When every line fits the buffer of the scanner, the records are those
    of the qualifying lines of the text: one record per qualifying line,
    in the order of the lines, and none for any other line. *)
Lemma parseTileDefs_records (s : string) :
  Forall (λ l, fitsBuffer l = true) (rawLines s) →
  Definitions (parseTileDefs s tilegen) =
    map recordOf (List.filter qualifies (textLines s)) ∧
  length (Definitions (parseTileDefs s tilegen)) =
    length (List.filter qualifies (textLines s)).
Proof.
  intros Hfit.
  assert (Definitions (parseTileDefs s tilegen) =
          map recordOf (List.filter qualifies (textLines s))) as ->.
  { rewrite parseTileDefs_Definitions, scannedLines_spec.
    by rewrite untilTooLong_all. }
  split; [done | by rewrite length_map].
Qed.

End Records.


(** C1 (the code breaks it): a line of 65536 bytes, the size beyond which
    the buffer of the scanner does not grow, ends the scanning loop.  The
    input [longInput] has three lines that qualify, with the symbols g, t
    and w; the parser makes the record of the first one only: neither the
    long line nor the line after it gives a record, and nothing is
    reported. *)
Theorem parseTileDefs_stops_at_long_line :
  len longLine = 65536 ∧
  map Symbol (map recordOf (List.filter qualifies (textLines longInput)))
    = ["g"; "t"; "w"] ∧
  Definitions (parseTileDefs longInput tilegen)
    = [ {| Symbol := "g"; Name := "Grass"; Properties := [] |} ].
Proof. vm_compute. done. Qed.

(** The limit is exact: the same line one byte shorter is scanned, and so is
    the line after it. *)
Lemma parseTileDefs_scans_65535_bytes :
  len shorterLine = 65535 ∧
  map Symbol
      (Definitions
         (parseTileDefs (shorterLine +:+ nl +:+ "w Water" +:+ nl) tilegen))
    = ["t"; "w"].
Proof. vm_compute. done. Qed.

(** ** The property registry *)

Section Registry.

Lemma PropertyNameSet_lookup (s p : string) :
  PropertyNameSet (parseTileDefs s tilegen) !! p =
  if decide (p ∈ allProperties (scannedLines s)) then Some true else None.
Proof.
  rewrite parseTileDefs_parseLines, parseLines_PropertyNameSet.
  rewrite setAll_lookup. fold (allProperties (scannedLines s)).
  destruct (decide _); [done|]. apply lookup_empty.
Qed.

Lemma elem_of_allProperties (lines : list string) (p : string) :
  p ∈ allProperties lines ↔
  ∃ l, l ∈ lines ∧ qualifies l = true ∧ p ∈ Properties (recordOf l).
Proof.
  unfold allProperties. rewrite list_elem_of_In, in_concat. split.
  - intros (ps & Hps & Hp). apply in_map_iff in Hps as (l & <- & Hl).
    apply filter_In in Hl as [Hl Hq].
    exists l. by rewrite !list_elem_of_In.
  - intros (l & Hl & Hq & Hp). exists (Properties (recordOf l)).
    split; [|by apply list_elem_of_In].
    apply in_map_iff. exists l. split; [done|].
    apply filter_In. split; [by apply list_elem_of_In | done].
Qed.

Lemma elem_of_Definitions (s : string) (tile : TileDef) :
  tile ∈ Definitions (parseTileDefs s tilegen) ↔
  ∃ l, l ∈ scannedLines s ∧ qualifies l = true ∧ tile = recordOf l.
Proof.
  rewrite parseTileDefs_Definitions, list_elem_of_In, in_map_iff. split.
  - intros (l & <- & Hl). apply filter_In in Hl as [Hl Hq].
    exists l. by rewrite list_elem_of_In.
  - intros (l & Hl & Hq & ->). exists l. split; [done|].
    apply filter_In. by rewrite <- list_elem_of_In.
Qed.


Lemma sortedKeys_Permutation (m : gmap string bool) :
  sortedKeys m ≡ₚ map fst (map_to_list m).
Proof. apply merge_sort_Permutation. Qed.

Lemma NoDup_sortedKeys (m : gmap string bool) : NoDup (sortedKeys m).
Proof.
  rewrite sortedKeys_Permutation. apply (NoDup_fst_map_to_list m).
Qed.

Lemma elem_of_sortedKeys (m : gmap string bool) (p : string) :
  p ∈ sortedKeys m ↔ is_Some (m !! p).
Proof.
  rewrite sortedKeys_Permutation, list_elem_of_In, in_map_iff. split.
  - intros ([k v] & <- & Hkv).
    apply list_elem_of_In, elem_of_map_to_list in Hkv. by exists v.
  - intros [v Hv]. exists (p, v). split; [done|].
    by apply list_elem_of_In, elem_of_map_to_list.
Qed.

End Registry.


(** ** Fields and empty fields *)

Section Fields.

Lemma Split_nonempty (s : string) (sep : ascii) : Strings.Split s sep ≠ [].
Proof.
  induction s as [|c s IH]; simpl; [done|].
  destruct (Ascii.eqb c sep); [done|].
  by destruct (Strings.Split s sep).
Qed.

(** Splitting at a separator splits the fields on either side of it. *)
Lemma Split_app_sep (a b : string) (sep : ascii) :
  Strings.Split (a +:+ String sep b) sep =
  Strings.Split a sep ++ Strings.Split b sep.
Proof.
  induction a as [|c a IH].
  - rewrite append_empty_l. simpl. by rewrite Ascii.eqb_refl.
  - rewrite append_cons. simpl. rewrite IH.
    destruct (Ascii.eqb c sep); [done|].
    pose proof (Split_nonempty a sep).
    by destruct (Strings.Split a sep).
Qed.

Lemma Split_double_space (a b : string) :
  Strings.Split (a +:+ "  " +:+ b) SP =
  Strings.Split a SP ++ EmptyString :: Strings.Split b SP.
Proof.
  change (a +:+ "  " +:+ b) with (a +:+ String SP (String SP b)).
  by rewrite Split_app_sep.
Qed.

Lemma recordOf_fields (line sym f1 : string) (rest : list string) :
  fields line = sym :: f1 :: rest →
  qualifies line = true ∧
  recordOf line = {| Symbol := sym; Name := capitilizeFirstLetter f1;
                     Properties := map capitilizeFirstLetter rest |}.
Proof.
  intros Hf. split.
  - apply (field_qualifies line f1 1); [by rewrite Hf | lia].
  - unfold recordOf. by rewrite Hf.
Qed.

End Fields.

(** C10: two spaces in a row leave an empty field between them, which is a
    field like any other.  For a scanned line whose fields are [sym], [f1]
    and [rest], the parser makes the record of symbol [sym], of name [f1]
    capitalised and of properties [rest] capitalised: an empty second field
    gives the empty name, and an empty field further on is a property of
    the record, the empty string, and is set in the PropertyNameSet. *)
Theorem empty_fields_are_fields
    (s line sym f1 : string) (rest : list string) (a b : string) :
  line ∈ scannedLines s →
  fields line = sym :: f1 :: rest →
  Strings.Split (a +:+ "  " +:+ b) SP =
    Strings.Split a SP ++ EmptyString :: Strings.Split b SP
  ∧ ∃ tile, tile ∈ Definitions (parseTileDefs s tilegen)
      ∧ Symbol tile = sym
      ∧ Name tile = capitilizeFirstLetter f1
      ∧ Properties tile = map capitilizeFirstLetter rest
      ∧ (f1 = EmptyString → Name tile = EmptyString)
      ∧ (EmptyString ∈ rest →
         EmptyString ∈ Properties tile ∧
         PropertyNameSet (parseTileDefs s tilegen) !! EmptyString = Some true).
Proof.
  intros Hline Hf. split; [apply Split_double_space|].
  destruct (recordOf_fields _ _ _ _ Hf) as [Hq Hrec].
  exists (recordOf line).
  assert (Hempty : EmptyString ∈ rest →
                   EmptyString ∈ map capitilizeFirstLetter rest).
  { intros Hin. apply list_elem_of_In, in_map_iff.
    exists EmptyString. split; [done | by apply list_elem_of_In]. }
  split; [apply elem_of_Definitions; by exists line|].
  rewrite Hrec. cbn [Symbol Name Properties].
  do 3 (split; [reflexivity|]).
  split; [by intros ->|].
  intros Hin. split; [auto|].
  rewrite PropertyNameSet_lookup. rewrite decide_True; [done|].
  apply elem_of_allProperties. exists line. repeat split; [done..|].
  rewrite Hrec. cbn [Properties]. auto.
Qed.

Lemma empty_fields_are_fields_witness :
  "g  Grass  burns" ∈ scannedLines "g  Grass  burns"
  ∧ fields "g  Grass  burns" = ["g"; ""; "Grass"; ""; "burns"]
  ∧ ∃ tile, tile ∈ Definitions (parseTileDefs "g  Grass  burns" tilegen)
      ∧ Symbol tile = "g"
      ∧ Name tile = EmptyString
      ∧ Properties tile = ["Grass"; ""; "Burns"]
      ∧ PropertyNameSet (parseTileDefs "g  Grass  burns" tilegen) !! EmptyString
        = Some true.
Proof.
  assert (H1 : "g  Grass  burns" ∈ scannedLines "g  Grass  burns").
  { apply list_elem_of_In. vm_compute. left. reflexivity. }
  assert (H2 : fields "g  Grass  burns" = ["g"; ""; "Grass"; ""; "burns"]).
  { vm_compute. reflexivity. }
  split; [exact H1|]. split; [exact H2|].
  destruct (empty_fields_are_fields _ _ _ _ _ "g" "Grass" H1 H2)
    as (_ & tile & Hin & Hsym & Hname & Hprops & _ & Hempty).
  assert (H3 : EmptyString ∈ ["Grass"; ""; "burns"]).
  { apply list_elem_of_In. simpl. right. left. reflexivity. }
  exists tile. split; [exact Hin|]. split; [exact Hsym|].
  split; [exact Hname|]. split; [exact Hprops|]. exact (proj2 (Hempty H3)).
Defined.

(** ** Capitalisation *)

Lemma capitilizeFirstLetter_empty :
  capitilizeFirstLetter EmptyString = EmptyString.
Proof. reflexivity. Qed.

(** On a string that begins with an ASCII byte, only that byte changes, and
    it becomes its upper-case form. *)
Lemma capitilizeFirstLetter_ascii (c : ascii) (rest : string) :
  ord c < 128 →
  capitilizeFirstLetter (String c rest) = String (upperASCII c) rest.
Proof.
  intros Hc. unfold capitilizeFirstLetter, Strings.ToUpper1, upperASCII.
  unfold Utf8.RuneSelf. destruct (Z.ltb_spec (ord c) 128); [|lia].
  by destruct ((97 <=? ord c) && (ord c <=? 122)).
Qed.

(** C7 (the code breaks it): the string of the three bytes C3 A9 61, the
    UTF-8 text of e-acute followed by a.  Only the byte C3 goes to ToUpper,
    not the character: the result starts with the three bytes of U+FFFD,
    and the second byte of the character is left behind it.  The first
    character is not in upper case (that is C3 89) and the result is not
    the text of any string of two characters. *)
Theorem capitilizeFirstLetter_multibyte :
  capitilizeFirstLetter (bytes [195; 169; 97]) = bytes [239; 191; 189; 169; 97].
Proof. reflexivity. Qed.

(** ** The bitmask assembler *)

Section Assembler.

Lemma printTokens_app (ts us : list token) :
  printTokens (ts ++ us) = printTokens ts +:+ printTokens us.
Proof.
  induction ts as [|t ts IH]; simpl; [done|].
  by rewrite IH, append_assoc.
Qed.

Lemma orTokens_snoc (arr : list string) (final : string) :
  orTokens (arr ++ [final]) = flat_map withOr arr ++ [TName final].
Proof.
  induction arr as [|v arr IH]; [done|].
  change ((v :: arr) ++ [final]) with (v :: (arr ++ [final])).
  cbn [orTokens flat_map]. rewrite IH.
  by destruct arr.
Qed.

(** The inner loop writes every name but the last one, each followed by
    the combinator. *)
Lemma fold_combinator (arr : list string) (s : string) :
  fold_left (λ s v, s +:+ v +:+ " | ") arr s =
  s +:+ printTokens (flat_map withOr arr).
Proof.
  revert s. induction arr as [|v arr IH]; intros s; simpl.
  - by rewrite append_nil_r.
  - rewrite IH. by rewrite !append_assoc.
Qed.

Lemma tokenNames_orTokens (props : list string) :
  tokenNames (orTokens props) = props.
Proof.
  induction props as [|p props IH]; [done|].
  destruct props as [|q props]; [done|].
  change (orTokens (p :: q :: props))
    with (TName p :: TOr :: orTokens (q :: props)).
  unfold tokenNames in *. cbn [omap list_omap]. by rewrite IH.
Qed.

Lemma count_orTokens (props : list string) :
  length (List.filter isOr (orTokens props)) = (length props - 1)%nat.
Proof.
  induction props as [|p props IH]; [done|].
  destruct props as [|q props]; [done|].
  change (orTokens (p :: q :: props))
    with (TName p :: TOr :: orTokens (q :: props)).
  cbn [List.filter isOr length]. rewrite IH. simpl. lia.
Qed.

Lemma last_orTokens (props : list string) :
  last (orTokens props) = TName <$> last props.
Proof.
  induction props as [|p props IH]; [done|].
  destruct props as [|q props]; [done|].
  change (orTokens (p :: q :: props))
    with (TName p :: TOr :: orTokens (q :: props)).
  rewrite (last_cons_cons p q props), <- IH.
  destruct (orTokens (q :: props)) as [|t ts] eqn:E; [|done].
  by destruct props.
Qed.

Lemma bitmaskExpr_one (p : string) : bitmaskExpr [p] = p.
Proof. apply append_nil_r. Qed.

Lemma stringifyTile_entry (s : string) (tile : TileDef) :
  stringifyTile s tile = s +:+ entry tile.
Proof.
  unfold stringifyTile, entry.
  destruct (Properties tile) as [|p [|q props]] eqn:E.
  - rewrite !append_assoc. reflexivity.
  - rewrite bitmaskExpr_one, !append_assoc. reflexivity.
  - cbn [length]. cbv iota beta.
    change (S (S (length props))) with (length (p :: q :: props)).
    destruct (exists_last (l := p :: q :: props)) as (arr & final & Hl);
      [done|].
    rewrite Hl.
    replace (length (arr ++ [final]) - 1)%nat with (length arr)
      by (rewrite length_app; simpl; lia).
    rewrite take_app_length, nth_middle, fold_combinator.
    assert (bitmaskExpr (arr ++ [final]) =
            printTokens (orTokens (arr ++ [final]))) as ->.
    { by destruct arr. }
    rewrite orTokens_snoc, printTokens_app. cbn [printTokens fold_right printToken].
    rewrite !append_assoc. reflexivity.
Qed.

Lemma stringifyPropertyList_entries (tg : TileGen) :
  DefaultProperties (stringifyPropertyList tg) = range (Definitions tg) entry.
Proof.
  unfold stringifyPropertyList. cbn [DefaultProperties].
  rewrite <- (append_empty_l (range _ _)).
  generalize EmptyString.
  induction (Definitions tg) as [|tile defs IH]; intros s; simpl.
  - by rewrite append_nil_r.
  - by rewrite IH, stringifyTile_entry, append_assoc.
Qed.

End Assembler.

(** C2: what stringifyPropertyList writes for a record is the tab, the
    name, a colon and the bitmask expression of its properties, closed by a
    comma and a line feed.  The expression is "0" for no property, the name
    for one property, and for more the print of the token sequence of the
    names in their order with one combinator between neighbours: the names
    of the sequence are the properties, it has one combinator less than it
    has names, and its last token is the last name. *)
Theorem stringifyTile_bitmask (tg : TileGen) (s : string) (tile : TileDef) :
  stringifyTile s tile =
    s +:+ tab +:+ Name tile +:+ ": "
      +:+ bitmaskExpr (Properties tile) +:+ "," +:+ nl
  ∧ DefaultProperties (stringifyPropertyList tg) =
      range (Definitions tg) (λ tile,
        tab +:+ Name tile +:+ ": "
            +:+ bitmaskExpr (Properties tile) +:+ "," +:+ nl)
  ∧ match Properties tile with
    | [] => bitmaskExpr (Properties tile) = "0"
    | [p] => bitmaskExpr (Properties tile) = p
    | p :: rest =>
      bitmaskExpr (Properties tile) = p +:+ " | " +:+ bitmaskExpr rest
    end
  ∧ bitmaskExpr (Properties tile) =
      (if decide (Properties tile = []) then "0"
       else printTokens (orTokens (Properties tile)))
  ∧ tokenNames (orTokens (Properties tile)) = Properties tile
  ∧ length (List.filter isOr (orTokens (Properties tile)))
    = (length (Properties tile) - 1)%nat
  ∧ last (orTokens (Properties tile)) = TName <$> last (Properties tile).
Proof.
  split; [apply stringifyTile_entry|].
  split; [apply stringifyPropertyList_entries|].
  split.
  { destruct (Properties tile) as [|p [|q props]]; [done | | done].
    unfold bitmaskExpr. simpl. apply append_nil_r. }
  split; [by destruct (Properties tile)|].
  split; [apply tokenNames_orTokens|].
  split; [apply count_orTokens | apply last_orTokens].
Qed.

(** C3: on the five sample lines the PropertyNameSet is Burns and Nowalk,
    the Kind constants are Grass, Dirt, Bush, Tree and Water in that order,
    the bitmask expressions are Burns, 0, Burns, Burns | Nowalk and Nowalk,
    and the symbols g, d, b, t and w map to these kinds; the source text
    rendered from the model is [sampleCode]. *)
Theorem sample_pipeline :
  PropertyNameSet sampleModel = {[ "Burns" := true; "Nowalk" := true ]}
  ∧ sortedKeys (PropertyNameSet sampleModel) = ["Burns"; "Nowalk"]
  ∧ kindConstants sampleModel =
      [("Grass", 1); ("Dirt", 2); ("Bush", 3); ("Tree", 4); ("Water", 5)]
  ∧ propertyConstants sampleModel = [("Burns", 1); ("Nowalk", 2)]
  ∧ map (λ tile, (Name tile, bitmaskExpr (Properties tile)))
        (Definitions sampleModel) =
      [("Grass", "Burns"); ("Dirt", "0"); ("Bush", "Burns");
       ("Tree", "Burns | Nowalk"); ("Water", "Nowalk")]
  ∧ DefaultProperties sampleModel =
      unlines [ tab +:+ "Grass: Burns,"; tab +:+ "Dirt: 0,";
                tab +:+ "Bush: Burns,"; tab +:+ "Tree: Burns | Nowalk,";
                tab +:+ "Water: Nowalk," ]
  ∧ symbolToKind sampleModel =
      [("g", "Grass"); ("d", "Dirt"); ("b", "Bush"); ("t", "Tree");
       ("w", "Water")]
  ∧ CodeTemplate sampleModel = sampleCode.
Proof. repeat split; vm_compute; reflexivity. Qed.

(** ** The values of the constants *)

Section Constants.






Lemma propertyExpr_pow2 (i : Z) : 0 ≤ i → propertyExpr (1 + i) = 2 ^ i.
Proof.
  intros Hi. unfold propertyExpr.
  rewrite Z.shiftl_mul_pow2, Z.shiftr_div_pow2 by lia.
  rewrite Z.mul_1_l, Z.pow_add_r, Z.pow_1_r by lia.
  rewrite Z.mul_comm. by apply Z.div_mul.
Qed.

(** The constants have the type Property, an int: the values of the first
    63 names fit an int of 64 bits, that of a 64th name is 2^63. *)
Lemma propertyExpr_int64 (iota : Z) :
  1 ≤ iota ≤ 64 →
  (propertyExpr iota < 2 ^ 63 ↔ iota ≤ 63).
Proof.
  intros Hi. replace iota with (1 + (iota - 1)) at 1 by lia.
  rewrite propertyExpr_pow2 by lia. split.
  - intros Hlt. apply Z.pow_lt_mono_r_iff in Hlt; lia.
  - intros Hle. apply Z.pow_lt_mono_r; lia.
Qed.




End Constants.


(** ** The order of the property constants *)

Section FlagOrder.






End FlagOrder.




(** ** Failures while the artifacts are written *)

Section Failures.

(** The one failure that makeTheFile looks at is that of opening the
    file. *)
Lemma makeTheFile_open_fatal (os : OS) (templ : TileGen → string)
    (filename err : string) (tg : TileGen) (fs : Files) :
  openFails os filename = Some err →
  makeTheFile os templ filename tg fs = Fatal err.
Proof. intros H. unfold makeTheFile. by rewrite H. Qed.

(** Whatever else fails, makeTheFile returns. *)
Lemma makeTheFile_returns (os : OS) (templ : TileGen → string)
    (filename : string) (tg : TileGen) (fs : Files) :
  openFails os filename = None →
  ∃ fs', makeTheFile os templ filename tg fs = Returns fs'.
Proof. intros H. unfold makeTheFile. rewrite H. by eexists. Qed.

Lemma main_returns (os : OS) (fs : Files) (input : string) :
  fs !! filenameTileTypes = Some input →
  openFails os filenameReadme = None →
  openFails os filenameCodeOutput = None →
  ∃ fs', main os fs = Returns fs'.
Proof.
  intros Hin Hr Hc. unfold main, processTileTypesFile. rewrite Hin.
  cbn [mbind outcome_bind]. unfold makeTheFile at 2. rewrite Hr.
  cbn [mbind outcome_bind]. by apply makeTheFile_returns.
Qed.

(** A target that cannot be opened ends the run. *)
Lemma main_open_fatal (os : OS) (fs : Files) (input err : string) :
  fs !! filenameTileTypes = Some input →
  openFails os filenameReadme = Some err →
  main os fs = Fatal err.
Proof.
  intros Hin Hr. unfold main, processTileTypesFile. rewrite Hin.
  cbn [mbind outcome_bind]. unfold makeTheFile at 2. by rewrite Hr.
Qed.

End Failures.

(** C8 (the code breaks it): with the files [staleFiles], on an operating
    system where truncating the README fails and writing it fails, no error
    is logged and the run does not stop: main returns, the README keeps its
    stale text, and the source artifact is written after the failures. *)
Theorem main_ignores_truncate_and_write_errors :
  truncateFails readmeFails filenameReadme = true
  ∧ writeFails readmeFails filenameReadme = Some 0%nat
  ∧ main readmeFails staleFiles =
      Returns
        {[ filenameTileTypes := "g Grass burns";
           filenameReadme := "stale table";
           filenameCodeOutput :=
             CodeTemplate
               (stringifyPropertyList (parseTileDefs "g Grass burns" tilegen)) ]}.
Proof. repeat split; vm_compute; reflexivity. Qed.

(** ** Generation and the time *)

Section Determinism.




Lemma ReadmeTemplate_time (tg : TileGen) :
  ReadmeTemplate tg = readmeBefore +:+ Timestamp tg +:+ readmeAfter tg.
Proof. reflexivity. Qed.


End Determinism.


(** * Further properties of the generator *)

(** ** The parser on any input and any state *)

Section ParserMore.

Lemma rawLines_nonempty (s : string) : s ≠ EmptyString → rawLines s ≠ [].
Proof.
  destruct s as [|c s]; [done|]. intros _. simpl.
  destruct (Ascii.eqb c LF); [done|]. by destruct (rawLines s).
Qed.

(** The lines of a text that ends in a line feed, followed by more text. *)
Lemma rawLines_app_nl (a b : string) :
  rawLines (a +:+ nl +:+ b) = rawLines (a +:+ nl) ++ rawLines b.
Proof.
  induction a as [|c a IH].
  - reflexivity.
  - rewrite !append_cons. simpl. rewrite IH.
    destruct (Ascii.eqb c LF); [done|].
    assert (Hne : rawLines (a +:+ nl) ≠ []).
    { apply rawLines_nonempty. by destruct a. }
    by destruct (rawLines (a +:+ nl)).
Qed.

(** A line feed added at the end closes the last line when it was open, and
    adds an empty line otherwise. *)
Lemma rawLines_snoc_nl (s : string) :
  rawLines (s +:+ nl) =
  rawLines s ++ (if endsOpen s then [] else [EmptyString]).
Proof.
  induction s as [|c s IH].
  - reflexivity.
  - rewrite append_cons. cbn [rawLines]. rewrite IH.
    destruct s as [|d s].
    + cbn [rawLines endsOpen app]. by destruct (Ascii.eqb c LF).
    + change (endsOpen (String c (String d s))) with (endsOpen (String d s)).
      destruct (Ascii.eqb c LF); [done|].
      assert (Hne : rawLines (String d s) ≠ []) by by apply rawLines_nonempty.
      by destruct (rawLines (String d s)).
Qed.

Lemma untilTooLong_app (l1 l2 : list string) :
  untilTooLong (l1 ++ l2) =
  if forallb fitsBuffer l1 then l1 ++ untilTooLong l2 else untilTooLong l1.
Proof.
  induction l1 as [|l l1 IH]; simpl; [done|].
  destruct (fitsBuffer l); simpl; [|done].
  rewrite IH. by destruct (forallb fitsBuffer l1).
Qed.

Lemma forallb_fitsBuffer (ls : list string) :
  forallb fitsBuffer ls = true ↔ Forall (λ l, fitsBuffer l = true) ls.
Proof.
  rewrite forallb_forall, Forall_forall.
  split; intros H l Hl; apply H; by apply list_elem_of_In.
Qed.

Lemma untilTooLong_fits (ls : list string) :
  forallb fitsBuffer ls = false → forallb fitsBuffer (untilTooLong ls) = true.
Proof.
  induction ls as [|l ls IH]; simpl; [done|].
  destruct (fitsBuffer l) eqn:E; simpl; [|done]. by rewrite E.
Qed.

Lemma parseLines_app (l1 l2 : list string) (tg : TileGen) :
  parseLines (l1 ++ l2) tg = parseLines l2 (parseLines l1 tg).
Proof. apply fold_left_app. Qed.

Lemma parseLine_blank (tg : TileGen) : parseLine EmptyString tg = tg.
Proof. reflexivity. Qed.

Lemma parseLines_Timestamp (lines : list string) (tg : TileGen) :
  Timestamp (parseLines lines tg) = Timestamp tg
  ∧ DefaultProperties (parseLines lines tg) = DefaultProperties tg.
Proof.
  revert tg. induction lines as [|l lines IH]; intros tg; [done|].
  unfold parseLines in *. simpl.
  destruct (IH (parseLine l tg)) as [-> ->].
  rewrite parseLine_spec. by destruct (qualifies l).
Qed.

End ParserMore.

(** X1: on every input and from every state of the model, the scanning loop
    ends as soon as its fuel exceeds the length of the input, and the
    definitions afterwards are the earlier ones followed by the records of
    the qualifying lines, in their order, among the lines that come before
    the first line of 65536 bytes or more; when every line is shorter,
    these are all the lines of the text. *)
Theorem parseTileDefs_all_inputs (s : string) (tg : TileGen) :
  Definitions (parseTileDefs s tg) =
    Definitions tg
    ++ map recordOf
         (List.filter qualifies (map Bufio.dropCR (untilTooLong (rawLines s))))
  ∧ (Forall (λ l, fitsBuffer l = true) (rawLines s) →
     Definitions (parseTileDefs s tg) =
       Definitions tg ++ map recordOf (List.filter qualifies (textLines s)))
  ∧ (∀ fuel : nat, (String.length s < fuel)%nat →
       scanLoop fuel s tg = parseTileDefs s tg).
Proof.
  assert (H : Definitions (parseTileDefs s tg) =
              Definitions tg
              ++ map recordOf
                   (List.filter qualifies
                      (map Bufio.dropCR (untilTooLong (rawLines s))))).
  { by rewrite parseTileDefs_parseLines, parseLines_Definitions,
       scannedLines_spec. }
  split; [exact H|]. split.
  - intros Hfit. rewrite H. by rewrite untilTooLong_all.
  - intros fuel Hfuel. unfold parseTileDefs. rewrite !scanLoop_scanAll.
    f_equal. apply scanAll_fuel; lia.
Qed.

(** X2: a line feed added at the end of the input changes nothing: a last
    line is parsed the same with or without its line feed, and an empty
    last line gives no record. *)
Theorem parseTileDefs_final_newline (s : string) (tg : TileGen) :
  parseTileDefs (s +:+ nl) tg = parseTileDefs s tg.
Proof.
  rewrite !parseTileDefs_parseLines, !scannedLines_spec, rawLines_snoc_nl.
  destruct (endsOpen s); [by rewrite app_nil_r|].
  rewrite untilTooLong_app.
  destruct (forallb fitsBuffer (rawLines s)) eqn:E; [|done].
  apply forallb_fitsBuffer in E. rewrite (untilTooLong_all _ E).
  cbn [untilTooLong]. change (fitsBuffer EmptyString) with true.
  rewrite map_app, parseLines_app. reflexivity.
Qed.

(** X3: parsing composes.  When the lines of a first text, closed by a line
    feed, all fit the buffer of the scanner, parsing it followed by a second
    text is parsing the first text and then, from the state reached, the
    second. *)
Theorem parseTileDefs_app (a b : string) (tg : TileGen) :
  Forall (λ l, fitsBuffer l = true) (rawLines (a +:+ nl)) →
  parseTileDefs (a +:+ nl +:+ b) tg =
  parseTileDefs b (parseTileDefs (a +:+ nl) tg).
Proof.
  intros Hfit.
  rewrite !parseTileDefs_parseLines, !scannedLines_spec, rawLines_app_nl.
  rewrite untilTooLong_app.
  rewrite (proj2 (forallb_fitsBuffer _) Hfit), (untilTooLong_all _ Hfit).
  by rewrite map_app, parseLines_app.
Qed.

Lemma parseTileDefs_app_witness :
  Forall (λ l, fitsBuffer l = true) (rawLines ("g Grass burns" +:+ nl))
  ∧ parseTileDefs ("g Grass burns" +:+ nl +:+ "t Tree burns nowalk") tilegen =
    parseTileDefs "t Tree burns nowalk"
                  (parseTileDefs ("g Grass burns" +:+ nl) tilegen).
Proof.
  assert (H : Forall (λ l, fitsBuffer l = true)
                     (rawLines ("g Grass burns" +:+ nl))).
  { apply forallb_fitsBuffer. vm_compute. reflexivity. }
  split; [exact H|]. exact (parseTileDefs_app _ _ tilegen H).
Defined.

(** X4: parsing only adds.  From every state, parseTileDefs leaves the time
    stamp and the DefaultProperties as they are, keeps the definitions that
    were there in front of the new ones, and changes the PropertyNameSet
    only by setting names to true: no name is removed. *)
Theorem parseTileDefs_only_adds (s : string) (tg : TileGen) (p : string) :
  Timestamp (parseTileDefs s tg) = Timestamp tg
  ∧ DefaultProperties (parseTileDefs s tg) = DefaultProperties tg
  ∧ take (length (Definitions tg)) (Definitions (parseTileDefs s tg))
    = Definitions tg
  ∧ (PropertyNameSet (parseTileDefs s tg) !! p = Some true
     ∨ PropertyNameSet (parseTileDefs s tg) !! p = PropertyNameSet tg !! p)
  ∧ (is_Some (PropertyNameSet tg !! p) →
     is_Some (PropertyNameSet (parseTileDefs s tg) !! p)).
Proof.
  rewrite parseTileDefs_parseLines.
  destruct (parseLines_Timestamp (scannedLines s) tg) as [-> ->].
  split; [done|]. split; [done|]. split.
  { rewrite parseLines_Definitions. by rewrite take_app_length. }
  rewrite parseLines_PropertyNameSet, setAll_lookup.
  destruct (decide _); split; auto.
Qed.

(** ** Bytes of strings *)

Section ByteFacts.

Lemma countByte_append (c : ascii) (a b : string) :
  countByte c (a +:+ b) = (countByte c a + countByte c b)%nat.
Proof.
  induction a as [|x a IH]; [done|].
  rewrite append_cons. simpl. rewrite IH. lia.
Qed.

Lemma ord_chr (n : Z) : 0 ≤ n < 256 → ord (chr n) = n.
Proof.
  intros Hn. unfold ord, chr. rewrite N_ascii_embedding; lia.
Qed.

Lemma ord_range (c : ascii) : 0 ≤ ord c < 256.
Proof. unfold ord. pose proof (N_ascii_bounded c). lia. Qed.

Lemma eqb_ord (x y : ascii) : ord x ≠ ord y → Ascii.eqb x y = false.
Proof. intros H. apply Ascii.eqb_neq. by intros ->. Qed.

Lemma takeS_takeS (n m : nat) (s : string) :
  takeS n (takeS m s) = takeS (Nat.min n m) s.
Proof.
  revert n m. induction s as [|c s IH]; intros [|n] [|m]; simpl; try done.
  by rewrite IH.
Qed.

Lemma takeS_dropS (n : nat) (s : string) : takeS n s +:+ dropS n s = s.
Proof.
  revert n. induction s as [|c s IH]; intros [|n]; simpl; try done.
  by rewrite append_cons, IH.
Qed.

Lemma length_takeS (n : nat) (s : string) :
  (String.length (takeS n s) ≤ n)%nat.
Proof.
  revert n. induction s as [|c s IH]; intros [|n]; simpl; try lia.
  specialize (IH n). lia.
Qed.

Lemma countByte_takeS (c : ascii) (n : nat) (s : string) :
  (countByte c (takeS n s) ≤ countByte c s)%nat.
Proof.
  rewrite <- (takeS_dropS n s) at 2. rewrite countByte_append. lia.
Qed.

Lemma countByte_dropCR (c : ascii) (s : string) :
  (countByte c (Bufio.dropCR s) ≤ countByte c s)%nat.
Proof.
  induction s as [|x s IH]; [done|].
  destruct s as [|y s].
  - simpl. destruct (Ascii.eqb x CR); simpl; lia.
  - change (Bufio.dropCR (String x (String y s)))
      with (String x (Bufio.dropCR (String y s))).
    cbn [countByte] in *. lia.
Qed.

End ByteFacts.

(** ** Trimming *)

Section Trimming.

(** What trimming on the left leaves is a part of the string. *)
Lemma countByte_trimLeftFrom (c : ascii) (k : nat) (s : string) :
  (countByte c (Strings.trimLeftFrom k s) ≤ countByte c s)%nat.
Proof.
  revert k. induction s as [|x s IH]; intros k; [done|].
  cbn [Strings.trimLeftFrom]. destruct k as [|k].
  - destruct (Utf8.DecodeRuneInString (String x s)) as [r w].
    destruct (Utf8.IsSpace r); [|done].
    specialize (IH (Nat.pred w)). cbn [countByte]. lia.
  - specialize (IH k). cbn [countByte]. lia.
Qed.

(** What it leaves does not begin with white space. *)
Lemma trimLeftFrom_head (k : nat) (s : string) (c : ascii) (r : string) :
  Strings.trimLeftFrom k s = String c r →
  Utf8.IsSpace (Utf8.DecodeRuneInString (String c r)).1 = false.
Proof.
  revert k. induction s as [|x s IH]; intros k; [done|].
  cbn [Strings.trimLeftFrom]. destruct k as [|k]; [|apply IH].
  destruct (Utf8.DecodeRuneInString (String x s)) as [ru w] eqn:E.
  destruct (Utf8.IsSpace ru) eqn:Hsp; [apply IH|].
  intros <-. by rewrite E.
Qed.

Lemma trimRightFuel_prefix (fuel : nat) (s : string) :
  ∃ n, Strings.trimRightFuel fuel s = takeS n s.
Proof.
  revert s. induction fuel as [|k IH]; intros s.
  - exists (String.length s). by rewrite takeS_all.
  - cbn [Strings.trimRightFuel].
    destruct (Utf8.DecodeLastRuneInString s) as [r size].
    destruct size as [|size]; [exists (String.length s); by rewrite takeS_all|].
    destruct (Utf8.IsSpace r); [|exists (String.length s); by rewrite takeS_all].
    destruct (IH (takeS (String.length s - S size) s)) as [n ->].
    rewrite takeS_takeS. by eexists.
Qed.

Lemma DecodeRuneInString_size0 (s : string) (r : Z) :
  Utf8.DecodeRuneInString s = (r, 0%nat) → r = Utf8.RuneError.
Proof.
  unfold Utf8.DecodeRuneInString. destruct s as [|c0 s]; [by intros [= <-]|].
  repeat (match goal with
          | |- context [if ?b then _ else _] => destruct b
          | |- context [match ?x with Some _ => _ | None => _ end] => destruct x
          | |- context [let '(_, _) := ?x in _] => destruct x
          end; try by intros [=]).
Qed.

Lemma DecodeLastRuneInString_size0 (s : string) (r : Z) :
  Utf8.DecodeLastRuneInString s = (r, 0%nat) → Utf8.IsSpace r = false.
Proof.
  unfold Utf8.DecodeLastRuneInString.
  destruct (len s =? 0); [by intros [= <-]|].
  destruct (byteAt s (len s - 1) <? Utf8.RuneSelf); [by intros [=]|].
  cbv zeta.
  destruct (Utf8.DecodeRuneInString _) as [r' size'] eqn:E.
  destruct (_ =? len s); [|by intros [=]].
  intros [= -> ->]. by apply DecodeRuneInString_size0 in E as ->.
Qed.

(** With fuel for every byte, what trimming on the right leaves is empty or
    does not end in white space. *)
Lemma trimRightFuel_last (fuel : nat) (s : string) :
  (String.length s ≤ fuel)%nat →
  Strings.trimRightFuel fuel s = EmptyString ∨
  Utf8.IsSpace
    (Utf8.DecodeLastRuneInString (Strings.trimRightFuel fuel s)).1 = false.
Proof.
  revert s. induction fuel as [|k IH]; intros s Hlen.
  - left. destruct s; [done | simpl in Hlen; lia].
  - cbn [Strings.trimRightFuel].
    destruct (Utf8.DecodeLastRuneInString s) as [r size] eqn:E.
    destruct size as [|size].
    + right. rewrite E. by apply DecodeLastRuneInString_size0 in E.
    + destruct (Utf8.IsSpace r) eqn:Hsp; [|right; by rewrite E].
      apply IH.
      pose proof (length_takeS (String.length s - S size) s). lia.
Qed.

Lemma countByte_TrimSpace (c : ascii) (s : string) :
  (countByte c (Strings.TrimSpace s) ≤ countByte c s)%nat.
Proof.
  unfold Strings.TrimSpace, Strings.TrimRightSpace, Strings.TrimLeftSpace.
  destruct (trimRightFuel_prefix
              (String.length (Strings.trimLeftFrom 0 s))
              (Strings.trimLeftFrom 0 s)) as [n ->].
  pose proof (countByte_takeS c n (Strings.trimLeftFrom 0 s)).
  pose proof (countByte_trimLeftFrom c 0 s). lia.
Qed.

(** A trimmed line does not begin with a space. *)
Lemma TrimSpace_head (s : string) (c : ascii) (r : string) :
  Strings.TrimSpace s = String c r → c ≠ SP.
Proof.
  unfold Strings.TrimSpace, Strings.TrimRightSpace, Strings.TrimLeftSpace.
  destruct (trimRightFuel_prefix
              (String.length (Strings.trimLeftFrom 0 s))
              (Strings.trimLeftFrom 0 s)) as [n ->].
  destruct (Strings.trimLeftFrom 0 s) as [|x t] eqn:E.
  - by destruct n.
  - destruct n as [|n]; [done|]. simpl. intros [= <- _] ->.
    apply trimLeftFrom_head in E. done.
Qed.

Lemma DecodeLastRuneInString_space (a : string) :
  Utf8.DecodeLastRuneInString (a +:+ String SP EmptyString) = (32, 1%nat).
Proof.
  unfold Utf8.DecodeLastRuneInString, len, byteAt.
  rewrite length_append. cbn [String.length].
  destruct (Z.eqb_spec (Z.of_nat (String.length a + 1)) 0); [lia|].
  replace (Z.to_nat (Z.of_nat (String.length a + 1) - 1))
    with (0 + String.length a)%nat by lia.
  rewrite <- (String.append_correct2 a (String SP EmptyString) 0).
  reflexivity.
Qed.

(** A trimmed line does not end with a space. *)
Lemma TrimSpace_last (s a : string) :
  Strings.TrimSpace s ≠ a +:+ String SP EmptyString.
Proof.
  intros H.
  destruct (trimRightFuel_last
              (String.length (Strings.TrimLeftSpace s))
              (Strings.TrimLeftSpace s) (le_n _)) as [He|Hsp];
    fold (Strings.TrimRightSpace (Strings.TrimLeftSpace s)) in *;
    fold (Strings.TrimSpace s) in *; rewrite H in *.
  - by destruct a.
  - by rewrite DecodeLastRuneInString_space in Hsp.
Qed.

End Trimming.

(** ** Splitting and capitalising *)

Section SplitFacts.

Lemma Split_length (s : string) (sep : ascii) :
  length (Strings.Split s sep) = S (countByte sep s).
Proof.
  induction s as [|c s IH]; [done|]. simpl.
  destruct (Ascii.eqb c sep); simpl; [by rewrite IH|].
  pose proof (Split_nonempty s sep).
  destruct (Strings.Split s sep); [done|]. simpl in *. lia.
Qed.

(** Joining the fields with the separator gives the string back. *)
Lemma Split_join (s : string) (sep : ascii) :
  String.concat (String sep EmptyString) (Strings.Split s sep) = s.
Proof.
  induction s as [|c s IH]; [done|]. cbn [Strings.Split].
  pose proof (Split_nonempty s sep) as Hne.
  destruct (Ascii.eqb_spec c sep) as [->|Hc].
  - destruct (Strings.Split s sep) as [|f fs] eqn:E; [done|].
    rewrite <- IH. reflexivity.
  - destruct (Strings.Split s sep) as [|f fs] eqn:E; [done|].
    rewrite <- IH. by destruct fs.
Qed.

(** A byte that does not occur in the string occurs in none of its fields,
    and the separator occurs in no field. *)
Lemma Split_countByte (s : string) (sep c : ascii) :
  countByte c s = 0%nat ∨ c = sep →
  Forall (λ f, countByte c f = 0%nat) (Strings.Split s sep).
Proof.
  induction s as [|x s IH]; intros H; [by repeat constructor|].
  simpl. destruct (Ascii.eqb_spec x sep) as [->|Hx].
  - constructor; [done|]. apply IH. destruct H as [H|H]; [|by right].
    left. simpl in H. lia.
  - assert (Hxc : Ascii.eqb x c = false ∧
                  (countByte c s = 0%nat ∨ c = sep)).
    { destruct H as [H| ->].
      - simpl in H. destruct (Ascii.eqb x c); [lia|]. split; [done|]. by left.
      - split; [by apply Ascii.eqb_neq | by right]. }
    destruct Hxc as [Hxc Hrest]. specialize (IH Hrest).
    destruct (Strings.Split s sep) as [|f fs]; simpl.
    + repeat constructor. simpl. by rewrite Hxc.
    + inversion IH as [|? ? Hf Hfs]; subst.
      constructor; [|done]. simpl. by rewrite Hxc, Hf.
Qed.

Lemma Split_head (c : ascii) (r : string) (sep : ascii) :
  c ≠ sep → ∃ f fs, Strings.Split (String c r) sep = String c f :: fs.
Proof.
  intros Hc. simpl. destruct (Ascii.eqb_spec c sep); [done|].
  destruct (Strings.Split r sep) as [|f fs]; by eexists _, _.
Qed.

(** The last field is empty only for the empty string and for a string that
    ends with the separator. *)
Lemma Split_last_empty (s : string) (sep : ascii) :
  last (Strings.Split s sep) = Some EmptyString →
  s = EmptyString ∨ ∃ a, s = a +:+ String sep EmptyString.
Proof.
  induction s as [|c s IH]; [by left|]. intros H. right.
  simpl in H. pose proof (Split_nonempty s sep) as Hne.
  destruct (Ascii.eqb_spec c sep) as [->|Hc].
  - destruct (Strings.Split s sep) as [|f fs] eqn:E; [done|].
    rewrite last_cons_cons in H. destruct (IH H) as [->|[a ->]].
    + by exists EmptyString.
    + by exists (String sep a).
  - destruct (Strings.Split s sep) as [|f fs] eqn:E; [done|].
    destruct fs as [|g fs]; [done|].
    rewrite last_cons_cons in H. rewrite last_cons_cons in IH.
    destruct (IH H) as [->|[a ->]]; [done|]. by exists (String c a).
Qed.

Lemma capitilizeFirstLetter_nonempty (s : string) :
  capitilizeFirstLetter s = EmptyString ↔ s = EmptyString.
Proof.
  split; [|by intros ->]. destruct s as [|c s]; [done|].
  unfold capitilizeFirstLetter, Strings.ToUpper1.
  destruct (_ <? _); [destruct (_ && _)|]; done.
Qed.

(** Capitalising neither adds nor removes a byte below 'A'. *)
Lemma countByte_capitilizeFirstLetter (b : ascii) (s : string) :
  ord b < 65 →
  countByte b (capitilizeFirstLetter s) = countByte b s.
Proof.
  intros Hb. destruct s as [|c s]; [done|].
  unfold capitilizeFirstLetter. rewrite countByte_append. cbn [countByte].
  f_equal. unfold Strings.ToUpper1, Utf8.RuneSelf.
  pose proof (ord_range c).
  destruct (Z.ltb_spec (ord c) 128).
  - destruct ((97 <=? ord c) && (ord c <=? 122)) eqn:E.
    + apply andb_true_iff in E as [?%Z.leb_le ?%Z.leb_le].
      cbn [countByte].
      rewrite (eqb_ord (chr (ord c - 32)) b) by (rewrite ord_chr; lia).
      by rewrite (eqb_ord c b) by lia.
    + cbn [countByte]. lia.
  - rewrite (eqb_ord c b) by lia.
    cbn [bytes countByte].
    rewrite !eqb_ord; [done | rewrite ord_chr; lia..].
Qed.

End SplitFacts.

(** ** The fields of a record *)

Section RecordFields.

Lemma rawLines_no_LF (s : string) :
  Forall (λ l, countByte LF l = 0%nat) (rawLines s).
Proof.
  induction s as [|c s IH]; [constructor|]. simpl.
  destruct (Ascii.eqb c LF) eqn:E; [by constructor|].
  destruct (rawLines s) as [|l ls]; simpl.
  - repeat constructor. simpl. by rewrite E.
  - inversion IH as [|? ? Hl Hls]; subst.
    constructor; [|done]. simpl. by rewrite E, Hl.
Qed.

Lemma elem_of_untilTooLong (l : string) (ls : list string) :
  l ∈ untilTooLong ls → l ∈ ls.
Proof.
  induction ls as [|x ls IH]; simpl; [done|].
  destruct (fitsBuffer x); [|by intros ?%elem_of_nil].
  intros [->|H]%elem_of_cons; [by left | right; auto].
Qed.

(** A scanned line holds no line feed. *)
Lemma scannedLines_no_LF (s l : string) :
  l ∈ scannedLines s → countByte LF l = 0%nat.
Proof.
  rewrite scannedLines_spec, list_elem_of_In, in_map_iff.
  intros (r & <- & Hr%list_elem_of_In%elem_of_untilTooLong).
  pose proof (rawLines_no_LF s) as Hall. rewrite Forall_forall in Hall.
  pose proof (countByte_dropCR LF r). specialize (Hall r Hr). lia.
Qed.

Lemma fields_countByte (line : string) (c : ascii) :
  countByte c line = 0%nat ∨ c = SP →
  Forall (λ f, countByte c f = 0%nat) (fields line).
Proof.
  intros H. apply Split_countByte. destruct H as [H|H]; [left | by right].
  pose proof (countByte_TrimSpace c line). lia.
Qed.

(** The fields of a qualifying line: the first and the last one are not
    empty. *)
Lemma fields_ends (line : string) :
  qualifies line = true →
  ∃ sym f1 rest,
    fields line = sym :: f1 :: rest
    ∧ sym ≠ EmptyString
    ∧ last (f1 :: rest) ≠ Some EmptyString.
Proof.
  unfold qualifies.
  intros [Hne%negb_true_iff Hlen%Nat.leb_le]%andb_true_iff.
  apply String.eqb_neq in Hne.
  destruct (Strings.TrimSpace line) as [|c r] eqn:E; [done|].
  pose proof (TrimSpace_head _ _ _ E) as Hc.
  destruct (Split_head c r SP Hc) as (f & fs & Hsplit).
  unfold fields in *. rewrite E in *. rewrite Hsplit in *.
  destruct fs as [|f1 rest]; [simpl in Hlen; lia|].
  exists (String c f), f1, rest. repeat split; [done|].
  intros Hlast.
  assert (Hl : last (Strings.Split (String c r) SP) = Some EmptyString).
  { rewrite Hsplit. by rewrite last_cons_cons. }
  apply Split_last_empty in Hl as [Hl|[a Hl]]; [done|].
  rewrite <- E in Hl. by apply TrimSpace_last in Hl.
Qed.

Lemma Forall_capitilize (c : ascii) (fs : list string) :
  ord c < 65 →
  Forall (λ f, countByte c f = 0%nat) fs →
  Forall (λ p, countByte c p = 0%nat) (map capitilizeFirstLetter fs).
Proof.
  intros Hc. induction 1 as [|f fs Hf _ IH]; simpl; constructor; [|done].
  by rewrite countByte_capitilizeFirstLetter.
Qed.

(** The record of a qualifying line without a line feed. *)
Lemma recordOf_wellformed (line : string) :
  qualifies line = true →
  countByte LF line = 0%nat →
  Symbol (recordOf line) ≠ EmptyString
  ∧ Forall (λ f, countByte SP f = 0%nat ∧ countByte LF f = 0%nat)
      (Symbol (recordOf line) :: Name (recordOf line)
         :: Properties (recordOf line))
  ∧ match last (Properties (recordOf line)) with
    | None => Name (recordOf line) ≠ EmptyString
    | Some p => p ≠ EmptyString
    end.
Proof.
  intros Hq HLF.
  destruct (fields_ends line Hq) as (sym & f1 & rest & Hf & Hsym & Hlast).
  destruct (recordOf_fields _ _ _ _ Hf) as [_ ->]. cbn [Symbol Name Properties].
  pose proof (fields_countByte line SP (or_intror eq_refl)) as HSP.
  pose proof (fields_countByte line LF (or_introl HLF)) as HnoLF.
  rewrite Hf in HSP, HnoLF.
  assert (Hall : ∀ c, ord c < 65 →
            Forall (λ f, countByte c f = 0%nat) (sym :: f1 :: rest) →
            Forall (λ f, countByte c f = 0%nat)
              (sym :: capitilizeFirstLetter f1
                   :: map capitilizeFirstLetter rest)).
  { intros c Hc H. inversion H as [|? ? Hs H']; subst.
    constructor; [done|]. by apply (Forall_capitilize c (f1 :: rest)). }
  split; [done|]. split.
  - apply Forall_and. split; apply Hall; done.
  - destruct rest as [|f2 rest].
    + simpl. rewrite capitilizeFirstLetter_nonempty. by intros ->.
    + rewrite last_cons_cons in Hlast.
      change (map capitilizeFirstLetter (f2 :: rest))
        with (capitilizeFirstLetter <$> (f2 :: rest)).
      rewrite fmap_last.
      destruct (last (f2 :: rest)) as [p|] eqn:E; simpl;
        [|by apply last_None in E].
      rewrite capitilizeFirstLetter_nonempty. by intros ->.
Qed.

Lemma countByte_printTokens (c : ascii) (props : list string) :
  countByte c " | " = 0%nat →
  Forall (λ p, countByte c p = 0%nat) props →
  countByte c (printTokens (orTokens props)) = 0%nat.
Proof.
  intros Hc. induction 1 as [|p props Hp Hall IH]; [done|].
  destruct props as [|q props].
  - simpl. rewrite countByte_append, Hp. done.
  - change (orTokens (p :: q :: props))
      with (TName p :: TOr :: orTokens (q :: props)).
    cbn [printTokens fold_right printToken].
    rewrite !countByte_append, Hp, Hc. exact IH.
Qed.

Lemma countByte_range {A : Type} (c : ascii) (n : nat) (l : list A)
    (body : A → string) :
  Forall (λ x, countByte c (body x) = n) l →
  countByte c (range l body) = (length l * n)%nat.
Proof.
  induction 1 as [|x l Hx _ IH]; [done|].
  simpl. rewrite countByte_append, Hx, IH. lia.
Qed.

End RecordFields.

(** X5: a line has one field more than its trimmed form has spaces, so a
    line makes a record exactly when its trimmed form holds a space, and
    the record then has one property less than the trimmed line has
    spaces. *)
Theorem qualifies_iff_space (line : string) :
  length (fields line) = S (countByte SP (Strings.TrimSpace line))
  ∧ (qualifies line = true ↔
     (0 < countByte SP (Strings.TrimSpace line))%nat)
  ∧ length (Properties (recordOf line))
    = (countByte SP (Strings.TrimSpace line) - 1)%nat.
Proof.
  assert (Hlen : length (fields line)
                 = S (countByte SP (Strings.TrimSpace line)))
    by apply Split_length.
  split; [exact Hlen|]. split.
  - unfold qualifies. rewrite Hlen.
    destruct (String.eqb_spec (Strings.TrimSpace line) EmptyString) as [E|E].
    + rewrite E. simpl. split; [done | lia].
    + cbn [negb andb]. rewrite Nat.leb_le. lia.
  - unfold recordOf. cbn [Properties].
    rewrite length_map, length_drop, Hlen. lia.
Qed.

(** X6: splitting loses nothing: the fields of a line joined by single
    spaces are the trimmed line, and no field holds a space. *)
Theorem fields_join (line : string) :
  String.concat " " (fields line) = Strings.TrimSpace line
  ∧ Forall (λ f, countByte SP f = 0%nat) (fields line).
Proof.
  split; [apply Split_join|]. apply fields_countByte. by right.
Qed.

(** X7: every record that the parser makes has a symbol that is not empty;
    neither its symbol nor its name nor any of its properties holds a space
    or a line feed; its last field is not empty: the last property when it
    has properties, the name when it has none. *)
Theorem records_wellformed (s : string) (tile : TileDef) :
  tile ∈ Definitions (parseTileDefs s tilegen) →
  Symbol tile ≠ EmptyString
  ∧ Forall (λ f, countByte SP f = 0%nat ∧ countByte LF f = 0%nat)
      (Symbol tile :: Name tile :: Properties tile)
  ∧ match last (Properties tile) with
    | None => Name tile ≠ EmptyString
    | Some p => p ≠ EmptyString
    end.
Proof.
  intros (l & Hl & Hq & ->)%elem_of_Definitions.
  apply recordOf_wellformed; [done|]. by apply (scannedLines_no_LF s).
Qed.

Lemma records_wellformed_witness :
  {| Symbol := "t"; Name := "Tree"; Properties := ["Burns"; "Nowalk"] |}
    ∈ Definitions (parseTileDefs "  t Tree burns nowalk  " tilegen)
  ∧ "t" ≠ EmptyString
  ∧ Forall (λ f, countByte SP f = 0%nat ∧ countByte LF f = 0%nat)
      ["t"; "Tree"; "Burns"; "Nowalk"]
  ∧ "Nowalk" ≠ EmptyString.
Proof.
  assert (H : {| Symbol := "t"; Name := "Tree";
                 Properties := ["Burns"; "Nowalk"] |}
              ∈ Definitions (parseTileDefs "  t Tree burns nowalk  " tilegen)).
  { apply list_elem_of_In. vm_compute. left. reflexivity. }
  split; [exact H|]. exact (records_wellformed _ _ H).
Defined.

Lemma parsed_record_no_LF (s : string) (tile : TileDef) :
  tile ∈ Definitions (parseTileDefs s tilegen) →
  Forall (λ f, countByte LF f = 0%nat)
         (Symbol tile :: Name tile :: Properties tile).
Proof.
  intros (l & Hl & Hq & ->)%elem_of_Definitions.
  destruct (recordOf_wellformed l Hq (scannedLines_no_LF s l Hl))
    as (_ & Hall & _).
  eapply Forall_impl; [exact Hall|]. by intros ? [_ ?].
Qed.

Lemma countByte_DefaultProperties (s : string) :
  countByte LF
    (DefaultProperties (stringifyPropertyList (parseTileDefs s tilegen)))
  = length (Definitions (parseTileDefs s tilegen)).
Proof.
  rewrite stringifyPropertyList_entries.
  rewrite (countByte_range LF 1); [lia|].
  apply Forall_forall. intros tile Htile.
  pose proof (parsed_record_no_LF s tile Htile) as Hall.
  apply Forall_cons in Hall as [_ Hall].
  apply Forall_cons in Hall as [Hname Hprops].
  unfold entry. rewrite !countByte_append, Hname.
  assert (countByte LF (bitmaskExpr (Properties tile)) = 0%nat) as ->.
  { destruct (Properties tile) as [|p ps] eqn:E; [done|].
    unfold bitmaskExpr. by apply countByte_printTokens. }
  reflexivity.
Qed.

(** X8: the DefaultProperties text made from a parsed input has one line
    for every record: it holds as many line feeds as there are records. *)
Theorem DefaultProperties_lines (s : string) :
  countByte LF
    (DefaultProperties (stringifyPropertyList (parseTileDefs s tilegen)))
  = length (Definitions (parseTileDefs s tilegen)).
Proof. apply countByte_DefaultProperties. Qed.

(** ** Capitalising a name that begins with an ASCII byte *)

Section CapitalASCII.

Lemma upperASCII_ord (c : ascii) :
  ord c < 128 →
  ord (upperASCII c) < 128
  ∧ ((97 <=? ord (upperASCII c)) && (ord (upperASCII c) <=? 122) = false).
Proof.
  intros Hc. unfold upperASCII. pose proof (ord_range c).
  destruct ((97 <=? ord c) && (ord c <=? 122)) eqn:E; [|done].
  apply andb_true_iff in E as [?%Z.leb_le ?%Z.leb_le].
  rewrite ord_chr by lia. split; [lia|].
  apply andb_false_iff. left. apply Z.leb_gt. lia.
Qed.

Lemma upperASCII_fixed (c : ascii) :
  upperASCII c = c ↔ (97 <=? ord c) && (ord c <=? 122) = false.
Proof.
  unfold upperASCII. pose proof (ord_range c).
  destruct ((97 <=? ord c) && (ord c <=? 122)) eqn:E; [|done].
  apply andb_true_iff in E as [?%Z.leb_le ?%Z.leb_le].
  split; [|done]. intros Heq.
  assert (ord (chr (ord c - 32)) = ord c) by by rewrite Heq.
  rewrite ord_chr in *; lia.
Qed.

End CapitalASCII.

(** X9: on a string that begins with an ASCII byte, capitilizeFirstLetter
    replaces that byte by its upper-case form and changes nothing else, so
    the length is kept; applying it again changes nothing; and the string
    comes back unchanged exactly when its first byte is not a lower-case
    letter. *)
Theorem capitilizeFirstLetter_ascii_idempotent (c : ascii) (rest : string) :
  ord c < 128 →
  capitilizeFirstLetter (String c rest) = String (upperASCII c) rest
  ∧ String.length (capitilizeFirstLetter (String c rest))
    = String.length (String c rest)
  ∧ capitilizeFirstLetter (capitilizeFirstLetter (String c rest))
    = capitilizeFirstLetter (String c rest)
  ∧ (capitilizeFirstLetter (String c rest) = String c rest ↔
     (97 <=? ord c) && (ord c <=? 122) = false).
Proof.
  intros Hc. rewrite (capitilizeFirstLetter_ascii c rest Hc).
  destruct (upperASCII_ord c Hc) as [Hu Hnl].
  split; [done|]. split; [done|]. split.
  - rewrite (capitilizeFirstLetter_ascii _ rest Hu). f_equal.
    by apply upperASCII_fixed.
  - rewrite <- upperASCII_fixed. split; [by intros [= ->] | by intros ->].
Qed.

Lemma capitilizeFirstLetter_ascii_idempotent_witness :
  ord "g" < 128
  ∧ capitilizeFirstLetter "grass" = "Grass"
  ∧ String.length (capitilizeFirstLetter "grass") = 5%nat
  ∧ capitilizeFirstLetter (capitilizeFirstLetter "grass")
    = capitilizeFirstLetter "grass"
  ∧ (capitilizeFirstLetter "grass" = "grass" ↔
     (97 <=? ord "g") && (ord "g" <=? 122) = false).
Proof.
  assert (H : ord "g" < 128) by (vm_compute; reflexivity).
  split; [exact H|].
  exact (capitilizeFirstLetter_ascii_idempotent "g" "rass" H).
Defined.

(** ** The property names and their constants *)

Section Flags.

Lemma firstSeen_fold (props acc : list string) :
  NoDup acc →
  NoDup (fold_left (λ seen p, if decide (p ∈ seen) then seen else seen ++ [p])
                   props acc)
  ∧ ∀ x, x ∈ fold_left
               (λ seen p, if decide (p ∈ seen) then seen else seen ++ [p])
               props acc
         ↔ x ∈ acc ∨ x ∈ props.
Proof.
  revert acc. induction props as [|p props IH]; intros acc Hacc.
  - split; [done|]. intros x. rewrite elem_of_nil. tauto.
  - cbn [fold_left]. destruct (decide (p ∈ acc)) as [Hin|Hnin].
    + destruct (IH acc Hacc) as [Hnd Hel]. split; [done|].
      intros x. rewrite Hel, elem_of_cons. split; [tauto|].
      intros [?|[->|?]]; tauto.
    + assert (Hacc' : NoDup (acc ++ [p])).
      { apply NoDup_app. repeat split; [done | | apply NoDup_singleton].
        intros x Hx ->%list_elem_of_singleton. done. }
      destruct (IH _ Hacc') as [Hnd Hel]. split; [done|].
      intros x. rewrite Hel, elem_of_app, list_elem_of_singleton, elem_of_cons.
      tauto.
Qed.

Lemma firstSeen_spec (defs : list TileDef) :
  NoDup (firstSeen defs)
  ∧ ∀ x, x ∈ firstSeen defs ↔ x ∈ concat (map Properties defs).
Proof.
  destruct (firstSeen_fold (concat (map Properties defs)) [] (NoDup_nil_2))
    as [Hnd Hel].
  split; [exact Hnd|]. intros x. unfold firstSeen. rewrite Hel, elem_of_nil.
  tauto.
Qed.

Lemma allProperties_Definitions (s : string) :
  allProperties (scannedLines s) =
  concat (map Properties (Definitions (parseTileDefs s tilegen))).
Proof.
  rewrite parseTileDefs_Definitions. unfold allProperties.
  by rewrite map_map.
Qed.

(** The names of the set after parsing are the property names of the
    records. *)
Lemma elem_of_sortedKeys_parse (s p : string) :
  p ∈ sortedKeys (PropertyNameSet (parseTileDefs s tilegen)) ↔
  p ∈ concat (map Properties (Definitions (parseTileDefs s tilegen))).
Proof.
  rewrite elem_of_sortedKeys, PropertyNameSet_lookup,
    allProperties_Definitions.
  destruct (decide _) as [H|H]; split; try done; by intros [? ?].
Qed.








End Flags.

(** X10: after parsing, the names that the template ranges over are the
    first-seen property names of the records put in ascending order: the
    PropertyNameSet has as many names as there are distinct properties. *)
Theorem sortedKeys_firstSeen (s : string) :
  sortedKeys (PropertyNameSet (parseTileDefs s tilegen))
    = merge_sort String.le (firstSeen (Definitions (parseTileDefs s tilegen)))
  ∧ size (PropertyNameSet (parseTileDefs s tilegen))
    = length (firstSeen (Definitions (parseTileDefs s tilegen)))
  ∧ NoDup (firstSeen (Definitions (parseTileDefs s tilegen))).
Proof.
  destruct (firstSeen_spec (Definitions (parseTileDefs s tilegen)))
    as [Hnd Hel].
  assert (Hperm : sortedKeys (PropertyNameSet (parseTileDefs s tilegen))
                  ≡ₚ firstSeen (Definitions (parseTileDefs s tilegen))).
  { apply NoDup_Permutation; [apply NoDup_sortedKeys | done |].
    intros x. by rewrite Hel, elem_of_sortedKeys_parse. }
  split; [|split; [|done]].
  - apply (StronglySorted_unique String.le).
    + apply StronglySorted_merge_sort; apply _.
    + apply StronglySorted_merge_sort; apply _.
    + by rewrite merge_sort_Permutation.
  - rewrite <- (length_map_to_list (PropertyNameSet (parseTileDefs s tilegen))).
    rewrite <- Hperm, sortedKeys_Permutation. by rewrite length_map.
Qed.





(** ** The run and the files *)

Section Run.

Lemma dropS_empty_iff (n : nat) (s : string) :
  dropS n s = EmptyString ↔ (String.length s ≤ n)%nat.
Proof.
  revert n. induction s as [|c s IH]; intros [|n]; simpl; try (split; [lia|done]).
  - split; [done | lia].
  - rewrite IH. lia.
Qed.

Lemma append_eq_self (a b : string) : a +:+ b = a ↔ b = EmptyString.
Proof.
  split; [|intros ->; apply append_nil_r].
  intros H. apply (inj (String.append a)). by rewrite append_nil_r.
Qed.

(** What main comes to, call by call. *)
Lemma main_cases (os : OS) (fs : Files) :
  main os fs =
  match fs !! filenameTileTypes with
  | None =>
    Fatal ("open " +:+ filenameTileTypes +:+ ": no such file or directory")
  | Some input =>
    let tg := stringifyPropertyList
                (parseTileDefs input (withTime (now os) tilegen)) in
    match openFails os filenameReadme with
    | Some err => Fatal err
    | None =>
      match makeTheFile os ReadmeTemplate filenameReadme tg fs with
      | Returns fs' => makeTheFile os CodeTemplate filenameCodeOutput tg fs'
      | Fatal err => Fatal err
      end
    end
  end.
Proof.
  unfold main, processTileTypesFile.
  destruct (fs !! filenameTileTypes) as [input|]; [|done].
  cbn [mbind outcome_bind]. unfold makeTheFile at 2 3.
  by destruct (openFails os filenameReadme).
Qed.

End Run.

(** X13: when the target can be opened and the writes succeed, makeTheFile
    returns, touches no other file, and leaves in the target the rendered
    text followed, when the truncation failed, by what the old content had
    beyond the length of the new text: the target holds exactly the
    rendered text if and only if the truncation succeeded or the old
    content was not longer than the new text. *)
Theorem makeTheFile_content (os : OS) (templ : TileGen → string)
    (filename : string) (tg : TileGen) (fs : Files) :
  openFails os filename = None →
  writeFails os filename = None →
  ∃ out,
    makeTheFile os templ filename tg fs = Returns out
    ∧ (∀ g, g ≠ filename → out !! g = fs !! g)
    ∧ out !! filename =
        Some (templ tg +:+
              (if truncateFails os filename
               then dropS (String.length (templ tg))
                          (default EmptyString (fs !! filename))
               else EmptyString))
    ∧ (out !! filename = Some (templ tg) ↔
       truncateFails os filename = false
       ∨ (String.length (default EmptyString (fs !! filename))
          ≤ String.length (templ tg))%nat).
Proof.
  intros Hopen Hwrite. unfold makeTheFile. rewrite Hopen, Hwrite.
  eexists. split; [reflexivity|]. split.
  { intros g Hg. by rewrite lookup_insert_ne. }
  rewrite lookup_insert_eq. unfold writeAt0.
  destruct (truncateFails os filename).
  - split; [done|]. split.
    + intros [= H]. right. by apply append_eq_self, dropS_empty_iff in H.
    + intros [?|H]; [done|]. f_equal.
      by apply append_eq_self, dropS_empty_iff.
  - rewrite dropS_empty. split; [done|]. split; [by left|].
    intros _. by rewrite append_nil_r.
Qed.

Lemma makeTheFile_content_witness :
  openFails readmeFails filenameCodeOutput = None
  ∧ writeFails readmeFails filenameCodeOutput = None
  ∧ ∃ out,
      makeTheFile readmeFails CodeTemplate filenameCodeOutput sampleModel
                  staleFiles = Returns out
      ∧ (∀ g, g ≠ filenameCodeOutput → out !! g = staleFiles !! g)
      ∧ out !! filenameCodeOutput =
          Some (CodeTemplate sampleModel +:+
                (if truncateFails readmeFails filenameCodeOutput
                 then dropS (String.length (CodeTemplate sampleModel))
                        (default EmptyString
                                 (staleFiles !! filenameCodeOutput))
                 else EmptyString))
      ∧ (out !! filenameCodeOutput = Some (CodeTemplate sampleModel) ↔
         truncateFails readmeFails filenameCodeOutput = false
         ∨ (String.length
              (default EmptyString (staleFiles !! filenameCodeOutput))
            ≤ String.length (CodeTemplate sampleModel))%nat).
Proof.
  assert (H1 : openFails readmeFails filenameCodeOutput = None)
    by reflexivity.
  assert (H2 : writeFails readmeFails filenameCodeOutput = None)
    by (vm_compute; reflexivity).
  split; [exact H1|]. split; [exact H2|].
  exact (makeTheFile_content readmeFails CodeTemplate filenameCodeOutput
           sampleModel staleFiles H1 H2).
Defined.


(** X15: a run that returns has written the two artifacts and nothing else:
    readme.md and types.go exist afterwards, and every other file, the
    definitions file among them, is as it was. *)
Theorem main_touches_only_outputs (os : OS) (fs out : Files) (path : string) :
  main os fs = Returns out →
  is_Some (out !! filenameReadme)
  ∧ is_Some (out !! filenameCodeOutput)
  ∧ out !! filenameTileTypes = fs !! filenameTileTypes
  ∧ (path ≠ filenameReadme → path ≠ filenameCodeOutput →
     out !! path = fs !! path).
Proof.
  rewrite main_cases.
  destruct (fs !! filenameTileTypes) as [input|] eqn:Hin; [|done].
  cbv zeta. unfold makeTheFile.
  destruct (openFails os filenameReadme); [done|].
  destruct (openFails os filenameCodeOutput); [done|].
  intros [= <-]. split; [|split; [|split]].
  - rewrite lookup_insert_ne by done. rewrite lookup_insert_eq. by eexists.
  - rewrite lookup_insert_eq. by eexists.
  - by rewrite !lookup_insert_ne by done.
  - intros H1 H2. by rewrite !lookup_insert_ne by done.
Qed.

Lemma main_touches_only_outputs_witness :
  main readmeFails staleFiles = Returns staleFilesAfter
  ∧ is_Some (staleFilesAfter !! filenameReadme)
  ∧ is_Some (staleFilesAfter !! filenameCodeOutput)
  ∧ staleFilesAfter !! filenameTileTypes = staleFiles !! filenameTileTypes
  ∧ ("src/grid.txt" ≠ filenameReadme → "src/grid.txt" ≠ filenameCodeOutput →
     staleFilesAfter !! "src/grid.txt" = staleFiles !! "src/grid.txt").
Proof.
  assert (H : main readmeFails staleFiles = Returns staleFilesAfter).
  { vm_compute. reflexivity. }
  split; [exact H|].
  exact (main_touches_only_outputs readmeFails staleFiles staleFilesAfter
           "src/grid.txt" H).
Defined.

(** ** The bit of a property and the lines after a long line *)

Section Rank.



Lemma rawLines_line (l : string) :
  countByte LF l = 0%nat → rawLines (l +:+ nl) = [l].
Proof.
  induction l as [|c l IH]; [done|]. rewrite append_cons. simpl.
  destruct (Ascii.eqb c LF); [done|]. intros H. by rewrite (IH H).
Qed.

End Rank.



(** X17: whatever follows a line of 65536 bytes or more is ignored, and so
    is the line itself: after a first text whose lines fit the buffer, a
    long line followed by any further text parses like the first text
    alone. *)
Theorem parseTileDefs_ignores_after_long_line
    (a long b : string) (tg : TileGen) :
  Forall (λ l, fitsBuffer l = true) (rawLines (a +:+ nl)) →
  countByte LF long = 0%nat →
  65536 ≤ len long →
  parseTileDefs (a +:+ nl +:+ long +:+ nl +:+ b) tg =
  parseTileDefs (a +:+ nl) tg.
Proof.
  intros Hfit HLF Hlong.
  rewrite !parseTileDefs_parseLines, !scannedLines_spec.
  rewrite rawLines_app_nl, (rawLines_app_nl long b), (rawLines_line long HLF).
  rewrite untilTooLong_app, (proj2 (forallb_fitsBuffer _) Hfit).
  rewrite (untilTooLong_all _ Hfit). cbn [app untilTooLong].
  unfold fitsBuffer at 1, Bufio.MaxScanTokenSize.
  destruct (Z.ltb_spec (len long) (64 * 1024)); [lia|].
  by rewrite app_nil_r.
Qed.

Lemma parseTileDefs_ignores_after_long_line_witness :
  Forall (λ l, fitsBuffer l = true) (rawLines ("g Grass" +:+ nl))
  ∧ countByte LF longLine = 0%nat
  ∧ 65536 ≤ len longLine
  ∧ parseTileDefs ("g Grass" +:+ nl +:+ longLine +:+ nl +:+ "w Water") tilegen
    = parseTileDefs ("g Grass" +:+ nl) tilegen.
Proof.
  assert (H1 : Forall (λ l, fitsBuffer l = true)
                      (rawLines ("g Grass" +:+ nl))).
  { apply forallb_fitsBuffer. vm_compute. reflexivity. }
  assert (H2 : countByte LF longLine = 0%nat) by (vm_compute; reflexivity).
  assert (H3 : 65536 ≤ len longLine) by (vm_compute; discriminate).
  split; [exact H1|]. split; [exact H2|]. split; [exact H3|].
  exact (parseTileDefs_ignores_after_long_line
           "g Grass" longLine "w Water" tilegen H1 H2 H3).
Defined.

(** ** A text that defines nothing *)

Section NoRecord.

Lemma rawLines_countByte (c : ascii) (s : string) :
  Forall (λ l, (countByte c l ≤ countByte c s)%nat) (rawLines s).
Proof.
  induction s as [|x s IH]; [constructor|]. simpl.
  assert (Hmono : ∀ l, (countByte c l ≤ countByte c s)%nat →
            (countByte c l
             ≤ (if Ascii.eqb x c then 1 else 0) + countByte c s)%nat)
    by (intros; lia).
  destruct (Ascii.eqb x LF).
  - constructor; [simpl; lia|]. by eapply Forall_impl.
  - destruct (rawLines s) as [|l ls].
    + repeat constructor. simpl. lia.
    + apply Forall_cons in IH as [Hl Hls].
      constructor; [simpl; lia|]. by eapply Forall_impl.
Qed.

Lemma qualifies_no_space (line : string) :
  countByte SP line = 0%nat → qualifies line = false.
Proof.
  intros H. unfold qualifies, fields. rewrite Split_length.
  pose proof (countByte_TrimSpace SP line).
  replace (countByte SP (Strings.TrimSpace line)) with 0%nat by lia.
  apply andb_false_r.
Qed.

Lemma parseLines_none (lines : list string) (tg : TileGen) :
  Forall (λ l, qualifies l = false) lines → parseLines lines tg = tg.
Proof.
  induction 1 as [|l lines Hl _ IH]; [done|].
  unfold parseLines in *. simpl. by rewrite parseLine_spec, Hl.
Qed.

End NoRecord.

(** X18: a text without a space defines nothing: parsing it, the empty
    text included, leaves the whole model as it was. *)
Theorem parseTileDefs_no_space (s : string) (tg : TileGen) :
  countByte SP s = 0%nat → parseTileDefs s tg = tg.
Proof.
  intros Hs. rewrite parseTileDefs_parseLines. apply parseLines_none.
  apply Forall_forall. intros l Hl. apply qualifies_no_space.
  rewrite scannedLines_spec in Hl.
  apply list_elem_of_In, in_map_iff in Hl as (r & <- & Hr).
  apply list_elem_of_In, elem_of_untilTooLong in Hr.
  pose proof (rawLines_countByte SP s) as Hall.
  rewrite Forall_forall in Hall. specialize (Hall r Hr).
  pose proof (countByte_dropCR SP r). lia.
Qed.

Lemma parseTileDefs_no_space_witness :
  countByte SP ("grass" +:+ nl +:+ nl +:+ "dirt") = 0%nat
  ∧ parseTileDefs ("grass" +:+ nl +:+ nl +:+ "dirt") sampleModel = sampleModel.
Proof.
  assert (H : countByte SP ("grass" +:+ nl +:+ nl +:+ "dirt") = 0%nat)
    by reflexivity.
  split; [exact H|]. exact (parseTileDefs_no_space _ sampleModel H).
Defined.

(** ** The lines of the artifacts *)

Section ArtifactLines.

Lemma sortedKeys_no_LF (s p : string) :
  p ∈ sortedKeys (PropertyNameSet (parseTileDefs s tilegen)) →
  countByte LF p = 0%nat.
Proof.
  intros Hp%elem_of_sortedKeys_parse.
  apply list_elem_of_In, in_concat in Hp as (ps & Hps & Hp).
  apply in_map_iff in Hps as (tile & <- & Htile).
  apply list_elem_of_In in Htile, Hp.
  pose proof (parsed_record_no_LF s tile Htile) as Hall.
  do 2 apply Forall_cons in Hall as [_ Hall].
  rewrite Forall_forall in Hall. by apply Hall.
Qed.

Lemma length_sortedKeys (m : gmap string bool) :
  length (sortedKeys m) = size m.
Proof.
  rewrite sortedKeys_Permutation, length_map. apply length_map_to_list.
Qed.

End ArtifactLines.

(** X19: no field of a parsed input can break a line of the artifacts.
    The source text has 22 fixed lines, three lines for every record (its
    Kind constant, its DefaultProperty entry, its SymbolToKind entry) and
    one line for every name of the PropertyNameSet; the README has 17 fixed
    lines, the line feeds of the time stamp, and one table row for every
    record. *)
Theorem artifacts_lines (s time : string) :
  countByte LF
    (CodeTemplate (stringifyPropertyList (parseTileDefs s tilegen)))
  = (22 + 3 * length (Definitions (parseTileDefs s tilegen))
     + size (PropertyNameSet (parseTileDefs s tilegen)))%nat
  ∧ countByte LF
      (ReadmeTemplate
         (withTime time (stringifyPropertyList (parseTileDefs s tilegen))))
    = (17 + countByte LF time
       + length (Definitions (parseTileDefs s tilegen)))%nat.
Proof.
  pose proof (parsed_record_no_LF s) as Hrec.
  assert (Hname : ∀ tile, tile ∈ Definitions (parseTileDefs s tilegen) →
            countByte LF (Symbol tile) = 0%nat
            ∧ countByte LF (Name tile) = 0%nat
            ∧ Forall (λ p, countByte LF p = 0%nat) (Properties tile)).
  { intros tile Htile. specialize (Hrec tile Htile).
    apply Forall_cons in Hrec as [? Hrec].
    by apply Forall_cons in Hrec as [? ?]. }
  split.
  - unfold CodeTemplate. rewrite !countByte_append.
    rewrite countByte_DefaultProperties.
    cbn [Definitions PropertyNameSet stringifyPropertyList].
    rewrite (countByte_range LF 1 (Definitions (parseTileDefs s tilegen))
               (λ tile, Name tile +:+ nl +:+ tab)).
    2:{ apply Forall_forall. intros tile Htile.
        destruct (Hname tile Htile) as (_ & Hn & _).
        by rewrite !countByte_append, Hn. }
    rewrite (countByte_range LF 1
               (sortedKeys (PropertyNameSet (parseTileDefs s tilegen)))).
    2:{ apply Forall_forall. intros p Hp.
        by rewrite !countByte_append, (sortedKeys_no_LF s p Hp). }
    rewrite (countByte_range LF 1 (Definitions (parseTileDefs s tilegen))).
    2:{ apply Forall_forall. intros tile Htile.
        destruct (Hname tile Htile) as (Hs & Hn & _).
        by rewrite !countByte_append, Hs, Hn. }
    rewrite length_sortedKeys.
    change (countByte LF tab) with 0%nat.
    repeat match goal with
           | |- context [countByte LF (unlines ?l)] =>
             let n := eval vm_compute in (countByte LF (unlines l)) in
             change (countByte LF (unlines l)) with n
           end.
    lia.
  - rewrite ReadmeTemplate_time. unfold readmeAfter.
    rewrite !countByte_append.
    cbn [Timestamp Definitions withTime stringifyPropertyList].
    rewrite (countByte_range LF 1 (Definitions (parseTileDefs s tilegen))).
    2:{ apply Forall_forall. intros tile Htile.
        destruct (Hname tile Htile) as (Hs & Hn & Hp).
        rewrite !countByte_append, Hs, Hn.
        rewrite (countByte_range LF 0 (Properties tile)).
        2:{ eapply Forall_impl; [exact Hp|].
            intros p Hp0. by rewrite !countByte_append, Hp0. }
        rewrite Nat.mul_0_r. reflexivity. }
    change (countByte LF readmeBefore) with 6%nat.
    repeat match goal with
           | |- context [countByte LF (unlines ?l)] =>
             let n := eval vm_compute in (countByte LF (unlines l)) in
             change (countByte LF (unlines l)) with n
           end.
    change (countByte LF nl) with 1%nat.
    lia.
Qed.
